(** * SAMAT/train.py: the training orchestrator, its meters and its run title

    A shallow embedding of [implementation/SAMAT/train.py].

    Conventions of the embedding.
    - Python [float]s are read as rationals ([Q]): the orchestrator only
      caches, averages and compares them.
    - Python [int]s are [Z]; indices of batches, samples and classes are [nat].
    - A Python [dict] is an association list in insertion order with unique
      keys ([dict_set] overwrites in place, as assignment to a key does).
    - A statement that can raise returns a [res]; the stateful part of the
      program runs in the monad [M], whose outcome after an uncaught
      exception still carries the trace of what was called, logged and saved
      before the crash. *)

From Stdlib Require Import ZArith QArith String Ascii List Bool Lia.
From Stdlib Require Import Permutation.
From Stdlib Require Import DecimalString.
Import ListNotations.


Local Open Scope string_scope.
Local Open Scope list_scope.

(* ================================================================== *)
(** * Python-level data *)

Module Py.

(** The exceptions the embedded code can raise. [External] stands for a
    failure inside a collaborator (torch, the data loader, the writer). *)
Inductive exn : Type :=
| TypeError (msg : string)
| KeyError (key : string)
| AttributeError (attr : string)
| UnboundLocalError (var : string)
| RuntimeError (msg : string)
| External (msg : string).

Inductive res (A : Type) : Type :=
| Ok (a : A)
| Raise (e : exn).
Arguments Ok {A} a.
Arguments Raise {A} e.

Definition res_bind {A B} (r : res A) (k : A -> res B) : res B :=
  match r with
  | Ok a => k a
  | Raise e => Raise e
  end.

Definition is_ok {A} (r : res A) : bool :=
  match r with Ok _ => true | Raise _ => false end.

(** ** Dictionaries *)

Definition dict (V : Type) : Type := list (string * V).

Fixpoint dict_get {V} (d : dict V) (k : string) : option V :=
  match d with
  | [] => None
  | (k', v) :: d' => if String.eqb k' k then Some v else dict_get d' k
  end.

Fixpoint dict_set {V} (d : dict V) (k : string) (v : V) : dict V :=
  match d with
  | [] => [(k, v)]
  | (k', v') :: d' =>
      if String.eqb k' k then (k', v) :: d' else (k', v') :: dict_set d' k v
  end.

(** [d[k]]: a missing key raises [KeyError]. *)
Definition dict_item {V} (d : dict V) (k : string) : res V :=
  match dict_get d k with
  | Some v => Ok v
  | None => Raise (KeyError k)
  end.

Definition keys {V} (d : dict V) : list string := map fst d.

(** ** The values an argparse namespace of this program holds *)

Inductive value : Type :=
| VBool (b : bool)
| VInt (z : Z)
| VFloat (q : Q)
| VStr (s : string).

(** Python compares [bool], [int] and [float] by numeric value
    ([True == 1], [2 == 2.0]); a string only equals a string. *)
Definition numeric (v : value) : option Q :=
  match v with
  | VBool b => Some (if b then 1 else 0)%Q
  | VInt z => Some (inject_Z z)
  | VFloat q => Some q
  | VStr _ => None
  end.

Definition py_eq (a b : value) : bool :=
  match numeric a, numeric b with
  | Some x, Some y => Qeq_bool x y
  | None, None =>
      match a, b with
      | VStr s, VStr t => String.eqb s t
      | _, _ => false
      end
  | _, _ => false
  end.

Definition py_ne (a b : value) : bool := negb (py_eq a b).

(** [v is True]: identity with the singleton [True]. *)
Definition is_True (v : value) : bool :=
  match v with
  | VBool true => true
  | _ => false
  end.

Definition str_of_Z (z : Z) : string := NilZero.string_of_int (Z.to_int z).

(** [",".join(l)] *)
Definition join (sep : string) (l : list string) : string :=
  String.concat sep l.

End Py.
Import Py.

Notation "x <-? r ; k" := (res_bind r (fun x => k))
  (at level 61, r at next level, right associativity).

(* ================================================================== *)
(** * The run title: [get_arguments] and [get_argument_title] *)

(** An argparse action, as far as [get_argument_title] reads it. *)
Record action : Type := mkAction {
  dest : string;
  default : value
}.

Definition Namespace : Type := dict value.

(** The actions [get_arguments] registers, in order. [ArgumentParser()] adds
    the [help] action first; its default is argparse's [SUPPRESS] marker.
    [rho] is declared [type=int] with the float default [2.0]. *)
Definition parser_actions : list action :=
  [ mkAction "help" (VStr "==SUPPRESS==");
    mkAction "adaptive" (VBool true);
    mkAction "batch_size" (VInt 128);
    mkAction "depth" (VInt 16);
    mkAction "dropout" (VFloat 0);
    mkAction "epochs" (VInt 200);
    mkAction "label_smoothing" (VFloat (1 # 10));
    mkAction "learning_rate" (VFloat (1 # 10));
    mkAction "momentum" (VFloat (9 # 10));
    mkAction "threads" (VInt 8);
    mkAction "rho" (VFloat 2);
    mkAction "weight_decay" (VFloat (5 # 10000));
    mkAction "width_factor" (VInt 8);
    mkAction "trades" (VBool false);
    mkAction "sgd" (VBool false);
    mkAction "beta" (VFloat 1);
    mkAction "gpus" (VStr "0");
    mkAction "step_size" (VFloat (2 # 255));
    mkAction "eps" (VFloat (8 # 255));
    mkAction "perturb_step" (VInt 10) ].

(** [get_arguments]: the parser, and the namespace [parse_args] made of the
    command line, which is the input of a run. *)
Definition get_arguments (parsed : Namespace) : list action * Namespace :=
  (parser_actions, parsed).

(** The namespace [parse_args] returns for an empty command line: every
    option at its default; [help] stores nothing. *)
Definition default_namespace : Namespace :=
  map (fun a => (dest a, default a)) (tl parser_actions).

Section Title.

(** [str] of a Python float (the shortest decimal that reads back as the
    same double): a function of the interpreter, not of this program. *)
Variable float_str : Q -> string.

Definition py_str (v : value) : string :=
  match v with
  | VBool true => "True"
  | VBool false => "False"
  | VInt z => str_of_Z z
  | VFloat q => float_str q
  | VStr s => s
  end.

(** [{action.dest: action.default for action in parser._actions}] *)
Definition defaults_of (parser : list action) : dict value :=
  fold_left (fun d a => dict_set d (dest a) (default a)) parser [].

(** [f"{arg}={value}"] *)
Definition title_entry (arg : string) (v : value) : string :=
  arg ++ "=" ++ py_str v.

(** The body of [for arg in vars(args)], threading the list [titles]. *)
Fixpoint title_loop (defaults : dict value) (items : list (string * value))
         (titles : list string) : res (list string) :=
  match items with
  | [] => Ok titles
  | (arg, v) :: rest =>
      dflt <-? dict_item defaults arg;
      if py_ne v dflt then
        title_loop defaults rest (titles ++ [title_entry arg v])
      else if is_True v then
        title_loop defaults rest (titles ++ [title_entry arg v])
      else
        title_loop defaults rest titles
  end.

Definition get_argument_title (parser : list action) (args : Namespace)
  : res string :=
  titles <-? title_loop (defaults_of parser) args [];
  Ok (join "," titles).

(** The options the title is said to list: value differs from the default,
    or value is the boolean [True]. *)
Definition listed (defaults : dict value) (item : string * value) : bool :=
  match dict_get defaults (fst item) with
  | Some dflt => py_ne (snd item) dflt || is_True (snd item)
  | None => false
  end.

End Title.

(* ================================================================== *)
(** * Tensors, as far as the accuracy computation reads them *)

(** One row of scores (one sample, one score per class) and a
    [batch x classes] tensor of them. *)
Definition row : Type := list Q.
Definition scores : Type := list row.

Definition Qltb (a b : Q) : bool := negb (Qle_bool b a).

(** [torch.argmax] along the class dimension: the index of the first
    maximal value. The scan keeps the best index seen so far and replaces
    it only by a strictly larger score. *)
Fixpoint argmax_scan (l : list Q) (i best : nat) (bv : Q) : nat :=
  match l with
  | [] => best
  | v :: l' =>
      if Qltb bv v then argmax_scan l' (S i) i v
      else argmax_scan l' (S i) best bv
  end.

Definition argmax_row (r : row) : res nat :=
  match r with
  | [] => Raise (RuntimeError "argmax of an empty dimension")
  | v :: r' => Ok (argmax_scan r' 1 0 v)
  end.

Fixpoint map_res {A B} (f : A -> res B) (l : list A) : res (list B) :=
  match l with
  | [] => Ok []
  | a :: l' => b <-? f a; bs <-? map_res f l'; Ok (b :: bs)
  end.

(** [torch.argmax(t, 1)] *)
Definition argmax1 (t : scores) : res (list nat) := map_res argmax_row t.

(** [torch.topk]: the indices of the [k] largest scores, largest first.
    Modelled as a stable descending sort of the indexed row (among equal
    scores the lower index comes first), cut after [k] entries. *)
Fixpoint insert_desc (p : nat * Q) (l : list (nat * Q)) : list (nat * Q) :=
  match l with
  | [] => [p]
  | h :: t =>
      if Qle_bool (snd h) (snd p) then p :: h :: t
      else h :: insert_desc p t
  end.

Fixpoint indexed_from (i : nat) (r : row) : list (nat * Q) :=
  match r with
  | [] => []
  | v :: r' => (i, v) :: indexed_from (S i) r'
  end.

Definition sort_desc (l : list (nat * Q)) : list (nat * Q) :=
  fold_right insert_desc [] l.

Definition ranking (r : row) : list nat :=
  map fst (sort_desc (indexed_from 0 r)).

Definition topk_row (k : nat) (r : row) : res (list nat) :=
  if (length r <? k)%nat
  then Raise (RuntimeError "selected index k out of range")
  else Ok (firstn k (ranking r)).

(** [t.topk(k)], indices only. *)
Definition topk (k : nat) (t : scores) : res (list (list nat)) :=
  map_res (topk_row k) t.

(** [.t()] of a [batch x k] index tensor: [k] rows of [batch] entries. *)
Definition transpose (k : nat) (t : list (list nat)) : list (list nat) :=
  map (fun j => map (fun r => nth j r 0%nat) t) (seq 0 k).

(** [y.view(1,-1).expand_as(t)] for a [t] with [n] columns: the labels as
    they are when there is one per column, a single label repeated, and an
    error otherwise. *)
Definition expand_labels (n : nat) (y : list nat) : res (list nat) :=
  if (length y =? n)%nat then Ok y
  else match y with
       | [l] => Ok (repeat l n)
       | _ => Raise (RuntimeError "expanded size must match the existing size")
       end.

(** [a == b] on two 1-d integer tensors, with torch's broadcasting of a
    dimension of size one. *)
Definition eq_tensor (a b : list nat) : res (list bool) :=
  if (length a =? length b)%nat
  then Ok (map (fun p => Nat.eqb (fst p) (snd p)) (combine a b))
  else match a, b with
       | _, [l] => Ok (map (fun i => Nat.eqb i l) a)
       | [i], _ => Ok (map (fun l => Nat.eqb i l) b)
       | _, _ => Raise (RuntimeError "size of tensor a must match size of tensor b")
       end.

(** [t.eq(labels)] row by row, as 0/1. *)
Definition hits_of_row (labels : list nat) (r : list nat) : list nat :=
  map (fun p => if Nat.eqb (fst p) (snd p) then 1%nat else 0%nat)
      (combine r labels).

(** [rows.float().sum(0)] over rows of [n] columns. *)
Fixpoint add_rows (a b : list nat) : list nat :=
  match a, b with
  | x :: a', y :: b' => (x + y)%nat :: add_rows a' b'
  | _, _ => []
  end.

Definition sum0 (n : nat) (rows : list (list nat)) : list nat :=
  fold_left add_rows rows (repeat 0%nat n).

Definition Q_of_nat (n : nat) : Q := inject_Z (Z.of_nat n).

Definition Qsum (l : list Q) : Q := fold_left Qplus l 0%Q.

(** [t.float().mean().item()] of a boolean tensor; [None] is the [nan] of
    an empty tensor. *)
Definition bool_mean (l : list bool) : option Q :=
  match l with
  | [] => None
  | _ => Some (Qred (Qsum (map (fun b : bool => if b then 1%Q else 0%Q) l)
                     / Q_of_nat (length l)))%Q
  end.

(* ================================================================== *)
(** * Meters *)

(** Modelled from the spec: [utility/meters.py] ([Meter], [ScalarMeter],
    [get_meters], [flush_scalar_meters]) is not part of the sources. Section
    4.4 of the specification describes a meter as a named accumulator of
    cached scalars, flushed once per epoch into a snapshot
    [name -> aggregated value]. *)
Definition Meter : Type := list Q.
Definition meters : Type := dict Meter.

(** [meters[name].cache(v)] *)
Definition meter_cache (m : meters) (name : string) (v : Q) : res meters :=
  vs <-? dict_item m name; Ok (dict_set m name (vs ++ [v])).

(** [meters[name].cache_list(l)] *)
Definition meter_cache_list (m : meters) (name : string) (l : list Q)
  : res meters :=
  vs <-? dict_item m name; Ok (dict_set m name (vs ++ l)).

(** Modelled from the spec: the meters section 4.4 names, nothing cached:
    natural and robust loss and top-K accuracy, clean and adversarial,
    for K from 1 to 4. *)
Definition meter_names : list string :=
  [ "natural_loss"; "robust_loss";
    "top1_accuracy"; "top2_accuracy"; "top3_accuracy"; "top4_accuracy";
    "top1_adv_accuracy"; "top2_adv_accuracy"; "top3_adv_accuracy";
    "top4_adv_accuracy" ].

Definition get_meters (phase : string) : meters :=
  map (fun n => (n, @nil Q)) meter_names.

Definition mean (l : list Q) : Q := Qred (Qsum l / Q_of_nat (length l))%Q.

(** Modelled from the spec: the flush of section 4.4. The snapshot holds the
    running mean of every meter that has cached values (a meter with nothing
    cached contributes no entry); every accumulator is reset except the
    reserved [best_val]. *)
Definition flush_scalar_meters (m : meters) : dict Q * meters :=
  ( map (fun e => (fst e, mean (snd e)))
        (filter (fun e => negb (Nat.eqb (length (snd e)) 0)) m),
    map (fun e => (fst e, if String.eqb (fst e) "best_val" then snd e else []))
        m ).

(* ================================================================== *)
(** * [calculate_acc_adv_acc] *)

(** [f"top{k}_accuracy"] and [f"top{k}_adv_accuracy"] *)
Definition acc_name (k : nat) : string :=
  "top" ++ str_of_Z (Z.of_nat k) ++ "_accuracy".
Definition adv_acc_name (k : nat) : string :=
  "top" ++ str_of_Z (Z.of_nat k) ++ "_adv_accuracy".

(** [corrects[:k].float().sum(0)] as a Python list of floats. *)
Definition correct_k (n k : nat) (corrects : list (list nat)) : list nat :=
  sum0 n (firstn k corrects).

(** The body of [for k in range(1,5)], threading the meters. *)
Fixpoint cache_topk (ks : list nat) (n_adv n : nat)
         (top_adv_corrects corrects : list (list nat)) (m : meters)
  : res meters :=
  match ks with
  | [] => Ok m
  | k :: ks' =>
      let adv_acc_list := map Q_of_nat (correct_k n_adv k top_adv_corrects) in
      let acc_list := map Q_of_nat (correct_k n k corrects) in
      m1 <-? meter_cache_list m (adv_acc_name k) adv_acc_list;
      m2 <-? meter_cache_list m1 (acc_name k) acc_list;
      cache_topk ks' n_adv n top_adv_corrects corrects m2
  end.

(** [calculate_acc_adv_acc]. The body runs under [torch.no_grad()], which
    puts the gradient switch back on exit; nothing in it reads the switch.
    The value is the pair [(accuracy, adv_accuracy)], with the meters as
    the call leaves them. *)
Definition calculate_acc_adv_acc (m : meters) (y : list nat)
           (adv_pred pred : scores) : res (meters * (option Q * option Q)) :=
  adv_am <-? argmax1 adv_pred;
  adv_correct <-? eq_tensor adv_am y;
  am <-? argmax1 pred;
  correct <-? eq_tensor am y;
  top_adv <-? topk 5 adv_pred;
  top <-? topk 5 pred;
  let top_adv_t := transpose 5 top_adv in
  let top_t := transpose 5 top in
  adv_labels <-? expand_labels (length adv_pred) y;
  let top_adv_corrects := map (hits_of_row adv_labels) top_adv_t in
  labels <-? expand_labels (length pred) y;
  let corrects := map (hits_of_row labels) top_t in
  m' <-? cache_topk (seq 1 4) (length adv_pred) (length pred)
                    top_adv_corrects corrects m;
  Ok (m', (bool_mean correct, bool_mean adv_correct)).

(* ================================================================== *)
(** * The collaborators of the orchestrator *)

Definition images : Type := list (list Q).

Record batch : Type := mkBatch {
  x_natural : images;
  y : list nat
}.

(** What [AT_TRAIN] and [AT_VAL] return:
    [(loss, loss_natural, loss_robust, adv_pred, pred)]. *)
Record at_result : Type := mkAtResult {
  loss : Q;
  loss_natural : Q;
  loss_robust : Q;
  adv_pred : scores;
  pred : scores
}.

(** The model, the optimizer and the adversarial step functions live in
    modules that are not part of the sources ([model/], [sam.py],
    [utility/trades.py], [utility/bypass_bn.py]) or in torch. The
    orchestrator is embedded over their interface. [AT_TRAIN] and [AT_VAL]
    read torch's global gradient switch, passed here as their first
    argument; [AT_VAL] is not given the optimizer. *)
Record collaborators : Type := mkCollaborators {
  Model : Type;
  Params : Type;
  Opt : Type;
  parameters : Model -> Params;
  WideResNet : value -> value -> value -> res Model;
  model_eval : Model -> Model;
  enable_running_stats : Model -> Model;
  optim_SGD : Model -> Namespace -> res Opt;
  SAM : Model -> Namespace -> res Opt;
  AT_TRAIN : bool -> Model -> Opt -> batch -> res (Model * Opt * at_result);
  AT_VAL : bool -> Model -> batch -> res (Model * at_result);
  (** [CosineAnnealingLR.get_last_lr()] after a number of scheduler steps. *)
  get_last_lr : Namespace -> nat -> list Q;
  (** [str] of a float. *)
  float_str : Q -> string
}.

(** What the machine and the clock provide to one run. *)
Record environment : Type := mkEnvironment {
  cuda_is_available : bool;
  start_time_str : string;
  dataset_train : list batch;
  dataset_test : list batch
}.

(** A scalar handed to [writer.add_scalar]: a float, or the list of floats
    [get_last_lr()] returns. *)
Inductive scalar : Type :=
| Float (q : Q)
| FloatList (l : list Q).

(** The trace of a run: the calls to the collaborators and the outputs, in
    program order. *)
Inductive event : Type :=
| Print (line : string)
| Progress (len : nat) (epoch : Z) (batch_idx : nat)
           (loss_nat loss_rob : Q) (accuracy adv_accuracy : option Q)
| Initialize (seed : Z)
| NewSummaryWriter (log_dir : string)
| NewCifar (batch_size threads : value)
| NewWideResNet (depth width_factor dropout : value)
| ModelTo (device : string)
| NewOptimizer (name : string)
| NewScheduler (t_max : value)
| SetGradEnabled (b : bool)
| ModelEval
| EnableRunningStats
| CallAT_TRAIN (batch_idx : nat) (grad : bool)
| CallAT_VAL (batch_idx : nat) (grad : bool)
| SchedulerStep
| AddScalar (tag : string) (v : scalar) (step : Z)
| Save (path : string).

(** The value a call returns to the orchestrator: [None], or a dict of
    scalars. *)
Inductive pyobj : Type :=
| PyNone
| PyDict (d : dict Q).

(** [o[key]] *)
Definition subscript (o : pyobj) (key : string) : res Q :=
  match o with
  | PyNone => Raise (TypeError "'NoneType' object is not subscriptable")
  | PyDict d => dict_item d key
  end.

(** [os.path.join] of relative components. *)
Definition path_join (l : list string) : string := join "/" l.

Definition dir_prefix : string := path_join [".."; "test"].
Definition checkpoint_dir : string := path_join [dir_prefix; "checkpoint"].

(** The interval test of line 197, [(epoch == 0) or (epoch + 1 % 10 == 0)]:
    [%] binds tighter than [+], so the second operand is
    [epoch + (1 % 10) == 0]. *)
Definition interval_checkpoint_due (epoch : Z) : bool :=
  (epoch =? 0)%Z || (epoch + 1 mod 10 =? 0)%Z.

(* ================================================================== *)
(** * The monad of the orchestrator *)

(** A computation extends the trace and transforms a store; an uncaught
    exception ends it and leaves the trace written so far. *)
Inductive outcome (S A : Type) : Type :=
| Returned (a : A) (tr : list event) (s : S)
| Crashed (e : exn) (tr : list event).
Arguments Returned {S A} a tr s.
Arguments Crashed {S A} e tr.

Definition M (S A : Type) : Type := list event -> S -> outcome S A.

Definition ret {S A} (a : A) : M S A := fun tr s => Returned a tr s.

Definition bind {S A B} (m : M S A) (k : A -> M S B) : M S B :=
  fun tr s =>
    match m tr s with
    | Returned a tr' s' => k a tr' s'
    | Crashed e tr' => Crashed e tr'
    end.

Definition raise {S A} (e : exn) : M S A := fun tr _ => Crashed e tr.

Definition lift {S A} (r : res A) : M S A :=
  match r with
  | Ok a => ret a
  | Raise e => raise e
  end.

Definition emit {S} (ev : event) : M S unit :=
  fun tr s => Returned tt (tr ++ [ev]) s.

Definition gets {S A} (f : S -> A) : M S A := fun tr s => Returned (f s) tr s.

Definition modify {S} (f : S -> S) : M S unit := fun tr s => Returned tt tr (f s).

Definition trace_of {S A} (o : outcome S A) : list event :=
  match o with
  | Returned _ tr _ => tr
  | Crashed _ tr => tr
  end.

Definition returned {S A} (o : outcome S A) : bool :=
  match o with
  | Returned _ _ _ => true
  | Crashed _ _ => false
  end.

Notation "x <- m ;; k" := (bind m (fun x => k))
  (at level 61, m at next level, right associativity).
Notation "m ;;; k" := (bind m (fun _ => k))
  (at level 61, right associativity).

(** [getattr(args, name)] *)
Definition getattr (args : Namespace) (name : string) : res value :=
  match dict_get args name with
  | Some v => Ok v
  | None => Raise (AttributeError name)
  end.

(** [range(v)] accepts an [int] (a [bool] is one). *)
Definition as_int (v : value) : res Z :=
  match v with
  | VInt z => Ok z
  | VBool b => Ok (if b then 1 else 0)%Z
  | _ => Raise (TypeError "object cannot be interpreted as an integer")
  end.

Definition range (n : Z) : list Z := map Z.of_nat (seq 0 (Z.to_nat n)).

(** The truth value [if v:] tests. *)
Definition truthy (v : value) : bool :=
  match v with
  | VBool b => b
  | VInt z => negb (z =? 0)%Z
  | VFloat q => negb (Qeq_bool q 0)
  | VStr s => negb (String.eqb s "")
  end.

(** Which of the two meter dicts of [main] a sweep was handed. *)
Inductive meters_ref : Type := TrainMeters | ValMeters.

(* ================================================================== *)
(** * [adv_learning] and [main] *)

Section Orchestrator.

Variable C : collaborators.
Variable args : Namespace.

(** The objects [main] creates and the sweeps mutate. *)
Record store : Type := mkStore {
  model : Model C;
  optimizer : Opt C;
  grad_enabled : bool;
  scheduler_steps : nat;
  train_meters : meters;
  val_meters : meters
}.

Definition with_model (m : Model C) (s : store) : store :=
  mkStore m (optimizer s) (grad_enabled s) (scheduler_steps s)
          (train_meters s) (val_meters s).
Definition with_optimizer (o : Opt C) (s : store) : store :=
  mkStore (model s) o (grad_enabled s) (scheduler_steps s)
          (train_meters s) (val_meters s).
Definition with_grad (b : bool) (s : store) : store :=
  mkStore (model s) (optimizer s) b (scheduler_steps s)
          (train_meters s) (val_meters s).
Definition with_scheduler_steps (n : nat) (s : store) : store :=
  mkStore (model s) (optimizer s) (grad_enabled s) n
          (train_meters s) (val_meters s).

Definition read_meters (r : meters_ref) (s : store) : meters :=
  match r with
  | TrainMeters => train_meters s
  | ValMeters => val_meters s
  end.

Definition write_meters (r : meters_ref) (m : meters) (s : store) : store :=
  match r with
  | TrainMeters =>
      mkStore (model s) (optimizer s) (grad_enabled s) (scheduler_steps s)
              m (val_meters s)
  | ValMeters =>
      mkStore (model s) (optimizer s) (grad_enabled s) (scheduler_steps s)
              (train_meters s) m
  end.

(** [torch.set_grad_enabled(b)] *)
Definition set_grad_enabled (b : bool) : M store unit :=
  emit (SetGradEnabled b) ;;; modify (with_grad b).

(** [model.eval()] *)
Definition do_model_eval : M store unit :=
  emit ModelEval ;;; modify (fun s => with_model (model_eval C (model s)) s).

(** [enable_running_stats(model)] *)
Definition do_enable_running_stats : M store unit :=
  emit EnableRunningStats ;;;
  modify (fun s => with_model (enable_running_stats C (model s)) s).

(** [AT_TRAIN(model, device, args, x_natural, y, optimizer)]: the model and
    the optimizer are updated in place. *)
Definition call_AT_TRAIN (batch_idx : nat) (b : batch) : M store at_result :=
  g <- gets grad_enabled ;;
  emit (CallAT_TRAIN batch_idx g) ;;;
  m <- gets model ;;
  o <- gets optimizer ;;
  r <- lift (AT_TRAIN C g m o b) ;;
  modify (fun s => with_optimizer (snd (fst r)) (with_model (fst (fst r)) s)) ;;;
  ret (snd r).

(** [AT_VAL(model, device, args, x_natural, y)] *)
Definition call_AT_VAL (batch_idx : nat) (b : batch) : M store at_result :=
  g <- gets grad_enabled ;;
  emit (CallAT_VAL batch_idx g) ;;;
  m <- gets model ;;
  r <- lift (AT_VAL C g m b) ;;
  modify (with_model (fst r)) ;;;
  ret (snd r).

(** [print_progress]: one line on standard output, kept in the trace by
    its fields. *)
Definition print_progress (batch_size : nat) (epoch : Z) (batch_idx : nat)
           (loss_natural loss_robust : Q) (accuracy adv_accuracy : option Q)
  : M store unit :=
  emit (Progress batch_size epoch batch_idx loss_natural loss_robust
                 accuracy adv_accuracy).

(** Lines 120-125: the losses of the batch are cached; every tenth batch
    the accuracies are computed, cached and printed. *)
Definition record_batch (ref : meters_ref) (len : nat) (epoch : Z)
           (batch_idx : nat) (b : batch) (r : at_result) : M store unit :=
  m <- gets (read_meters ref) ;;
  m1 <- lift (meter_cache m "natural_loss" (loss_natural r)) ;;
  m2 <- lift (meter_cache m1 "robust_loss" (loss_robust r)) ;;
  modify (write_meters ref m2) ;;;
  if (batch_idx mod 10 =? 0)%nat then
    acc <- lift (calculate_acc_adv_acc m2 (y b) (adv_pred r) (pred r)) ;;
    modify (write_meters ref (fst acc)) ;;;
    print_progress len epoch batch_idx (loss_natural r) (loss_robust r)
                   (fst (snd acc)) (snd (snd acc))
  else ret tt.

(** The body of [for batch_idx, batch in enumerate(data_loader)]. *)
Definition batch_body (mode : string) (ref : meters_ref) (len : nat)
           (epoch : Z) (batch_idx : nat) (b : batch) : M store unit :=
  (if String.eqb mode "train" then do_enable_running_stats else ret tt) ;;;
  r <- (if String.eqb mode "train"
        then call_AT_TRAIN batch_idx b
        else call_AT_VAL batch_idx b) ;;
  record_batch ref len epoch batch_idx b r.

Fixpoint batch_loop (mode : string) (ref : meters_ref) (len : nat)
         (epoch : Z) (batch_idx : nat) (data : list batch) : M store unit :=
  match data with
  | [] => ret tt
  | b :: data' =>
      batch_body mode ref len epoch batch_idx b ;;;
      batch_loop mode ref len epoch (S batch_idx) data'
  end.

(** [for k, v in results.items()]: the records of one sweep. *)
Fixpoint log_results (mode : string) (epoch : Z) (items : list (string * Q))
  : M store unit :=
  match items with
  | [] => ret tt
  | (k, v) :: rest =>
      (if negb (String.eqb k "best_val") then
         if String.eqb mode "train"
         then emit (AddScalar ("train/" ++ k) (Float v) epoch)
         else emit (AddScalar ("adv_val/" ++ k) (Float v) epoch)
       else ret tt) ;;;
      log_results mode epoch rest
  end.

(** [adv_learning]: the function has no [return] statement, so a call
    that does not raise evaluates to [None]. *)
Definition adv_learning (mode : string) (data_loader : list batch)
           (ref : meters_ref) (epoch : Z) : M store pyobj :=
  (if String.eqb mode "val"
   then do_model_eval ;;; set_grad_enabled false
   else ret tt) ;;;
  batch_loop mode ref (length data_loader) epoch 0 data_loader ;;;
  (if String.eqb mode "val" then set_grad_enabled true else ret tt) ;;;
  m <- gets (read_meters ref) ;;
  let flushed := flush_scalar_meters m in
  modify (write_meters ref (snd flushed)) ;;;
  log_results mode epoch (fst flushed) ;;;
  n <- gets scheduler_steps ;;
  emit (AddScalar (mode ++ "/lr") (FloatList (get_last_lr C args n)) epoch) ;;;
  ret PyNone.

(** [scheduler.step()] *)
Definition scheduler_step : M store unit :=
  emit SchedulerStep ;;;
  modify (fun s => with_scheduler_steps (S (scheduler_steps s)) s).

(** [torch.save(model, os.path.join(checkpoint_dir, name))] *)
Definition save_checkpoint (name : string) : M store unit :=
  emit (Save (path_join [checkpoint_dir; name])).

(** Lines 190-193: the best-checkpoint branch, returning the new
    [best_val]. *)
Definition best_checkpoint (results : pyobj) (best_val : Q) : M store Q :=
  a <- lift (subscript results "top1_accuracy") ;;
  if Qltb best_val a then
    a' <- lift (subscript results "top1_accuracy") ;;
    save_checkpoint "best.pth" ;;;
    ret a'
  else ret best_val.

(** Lines 195-198: the tracker record and the interval checkpoint. *)
Definition interval_checkpoint (epoch : Z) (best_val : Q) : M store unit :=
  emit (AddScalar "val/best_val" (Float best_val) epoch) ;;;
  if interval_checkpoint_due epoch
  then save_checkpoint ("epoch_" ++ str_of_Z epoch ++ ".pth")
  else ret tt.

(** Lines 190-198: what an iteration does with [results]. *)
Definition epoch_decisions (results : pyobj) (epoch : Z) (best_val : Q)
  : M store Q :=
  best_val' <- best_checkpoint results best_val ;;
  interval_checkpoint epoch best_val' ;;;
  ret best_val'.

Section Epochs.

Variable E : environment.

(** Lines 183-188: the tracker is cached, then the training sweep, the
    scheduler step and the validation sweep, whose value is bound to
    [results]. *)
Definition epoch_sweeps (epoch : Z) (best_val : Q) : M store pyobj :=
  vm <- gets val_meters ;;
  vm' <- lift (meter_cache vm "best_val" best_val) ;;
  modify (write_meters ValMeters vm') ;;;
  adv_learning "train" (dataset_train E) TrainMeters epoch ;;;
  scheduler_step ;;;
  adv_learning "val" (dataset_test E) ValMeters epoch.

(** The body of [for epoch in range(args.epochs)], returning the
    [best_val] the next iteration starts from. *)
Definition epoch_body (epoch : Z) (best_val : Q) : M store Q :=
  results <- epoch_sweeps epoch best_val ;;
  epoch_decisions results epoch best_val.

Fixpoint epoch_loop (epochs : list Z) (best_val : Q) : M store Q :=
  match epochs with
  | [] => ret best_val
  | epoch :: rest =>
      best_val' <- epoch_body epoch best_val ;;
      epoch_loop rest best_val'
  end.

End Epochs.

End Orchestrator.

Section Main.

Variable C : collaborators.
Variable E : environment.
Variable args : Namespace.

(** Lines 143-147: [device] is bound only on the CUDA branch. *)
Definition select_device : M unit (option string) :=
  if cuda_is_available E then
    gpus <- lift (getattr args "gpus") ;;
    ret (Some ("cuda:" ++ py_str (float_str C) gpus)%string)
  else
    emit (Print "Warning: torch.cuda.is_available is not True") ;;;
    ret None.

(** Reading the local variable [device]. *)
Definition read_device (device : option string) : M unit string :=
  match device with
  | Some d => ret d
  | None => raise (UnboundLocalError "device")
  end.

(** Lines 167-178: the optimizer, and the line announcing it. *)
Definition make_optimizer (net : Model C) : M unit (Opt C) :=
  sgd <- lift (getattr args "sgd") ;;
  used <- (if truthy sgd then
             o <- lift (optim_SGD C net args) ;;
             emit (NewOptimizer "SGD") ;;;
             ret ("SGD", o)
           else
             o <- lift (SAM C net args) ;;
             emit (NewOptimizer "SAM") ;;;
             ret ("SAM", o)) ;;
  emit (Print ("using " ++ fst used)%string) ;;;
  ret (snd used).

(** Lines 139-179 of [main]: everything before the epoch loop, returning
    the objects the loop works on. *)
Definition setup : M unit (store C) :=
  let parser := fst (get_arguments args) in
  title <- lift (get_argument_title (float_str C) parser args) ;;
  emit (Initialize 42) ;;;
  device <- select_device ;;
  let log_dir :=
    path_join [dir_prefix; "runs"; (title ++ "-" ++ start_time_str E)%string] in
  emit (NewSummaryWriter log_dir) ;;;
  batch_size <- lift (getattr args "batch_size") ;;
  threads <- lift (getattr args "threads") ;;
  emit (NewCifar batch_size threads) ;;;
  depth <- lift (getattr args "depth") ;;
  width_factor <- lift (getattr args "width_factor") ;;
  dropout <- lift (getattr args "dropout") ;;
  net <- lift (WideResNet C depth width_factor dropout) ;;
  emit (NewWideResNet depth width_factor dropout) ;;;
  d <- read_device device ;;
  emit (ModelTo d) ;;;
  let train_meters := get_meters "train" in
  let val_meters := dict_set (get_meters "val") "best_val" [] in
  o <- make_optimizer net ;;
  epochs <- lift (getattr args "epochs") ;;
  emit (NewScheduler epochs) ;;;
  ret (mkStore C net o true 0%nat train_meters val_meters).

(** [main]: the setup, then [best_val = 0.0] and the epoch loop. *)
Definition main : outcome (store C) unit :=
  match setup [] tt with
  | Crashed e tr => Crashed e tr
  | Returned s0 tr _ =>
      (epochs <- lift (getattr args "epochs") ;;
       n <- lift (as_int epochs) ;;
       epoch_loop C args E (range n) 0 ;;;
       ret tt) tr s0
  end.

End Main.

(* ================================================================== *)
(** * A small concrete instance, to run the embedding *)

(** A collaborator set whose model is a counter of optimizer updates:
    [AT_TRAIN] advances it, [AT_VAL] leaves it alone. Both score a sample
    by the first six values of its image (padded with zeros), one row of
    scores per label. *)
Definition six_scores (image : list Q) : row :=
  firstn 6 (image ++ repeat 0%Q 6).

Definition toy_scores (b : batch) : scores :=
  map (fun i => six_scores (nth i (x_natural b) [])) (seq 0 (length (y b))).

Definition toy_predict (b : batch) : at_result :=
  mkAtResult 3 1 2 (toy_scores b) (toy_scores b).

Definition toy : collaborators :=
  mkCollaborators
    nat nat nat
    (fun m => m)
    (fun _ _ _ => Ok 0%nat)
    (fun m => m)
    (fun m => m)
    (fun _ _ => Ok 0%nat)
    (fun _ _ => Ok 0%nat)
    (fun _ m o b => Ok (S m, S o, toy_predict b))
    (fun _ m b => Ok (m, toy_predict b))
    (fun _ n => [Q_of_nat n])
    (fun _ => "<float>").

(** Two samples over six classes: the first is classified correctly at
    top-1 (label 2), the second only at top-3 (label 0). *)
Definition toy_batch : batch :=
  mkBatch [ [0; 1; 9; 2; 3; 4]; [5; 7; 1; 0; 6; 2] ]%Q [2; 0]%nat.

Definition toy_env (cuda : bool) (n_train n_test : nat) : environment :=
  mkEnvironment cuda "2024-01-01_00-00-00"
                (repeat toy_batch n_train) (repeat toy_batch n_test).

(** The namespace of a run started with [--epochs n]. *)
Definition args_epochs (n : Z) : Namespace :=
  dict_set default_namespace "epochs" (VInt n).

(** Two samples over six classes, both classified correctly at top-1. *)
Definition toy_batch_easy : batch :=
  mkBatch [ [9; 1; 0; 2; 3; 4]; [9; 7; 1; 0; 6; 2] ]%Q [0; 0]%nat.

(** The store [main] enters the epoch loop with, for the toy collaborators. *)
Definition toy_store : store toy :=
  mkStore toy 0%nat 0%nat true 0%nat
          (get_meters "train") (dict_set (get_meters "val") "best_val" []).

(* ================================================================== *)
(** * Vocabulary of the statements *)

(** Every option of the namespace is an action of the parser, as it is for
    a namespace [parse_args] returned. *)
Definition known_options (parser : list action) (args : Namespace) : bool :=
  forallb (fun name => existsb (String.eqb name) (map dest parser)) (keys args).



(** The events of a run that never gets past the sweeps of epoch [epoch]:
    no checkpoint, no record of the tracker, and every record and progress
    line is stamped with that epoch. *)
Definition unfinished_epoch_event (epoch : Z) (ev : event) : Prop :=
  match ev with
  | Save _ => False
  | AddScalar t _ step => t <> "val/best_val" /\ step = epoch
  | Progress _ e _ _ _ _ _ => e = epoch
  | _ => True
  end.

(** The events of the setup that precede the move of the model to the
    device. *)
Definition before_device (ev : event) : Prop :=
  match ev with
  | Initialize _ | Print _ | NewSummaryWriter _ | NewCifar _ _
  | NewWideResNet _ _ _ => True
  | _ => False
  end.

(** [emits P Q m]: from any trace and store, [m] only appends events
    satisfying [P], and a value it returns satisfies [Q]. *)
Definition emits {S A} (P : event -> Prop) (Q : A -> Prop) (m : M S A) : Prop :=
  forall tr s,
    match m tr s with
    | Returned a tr' _ => Q a /\ exists l, tr' = tr ++ l /\ Forall P l
    | Crashed _ tr' => exists l, tr' = tr ++ l /\ Forall P l
    end.

Definition any {A} : A -> Prop := fun _ => True.

(** The namespace a sweep logs its meters under. *)
Definition namespace_of (mode : string) : string :=
  if String.eqb mode "train" then "train/" else "adv_val/".

(** The events one call of [adv_learning] in mode [mode] can append: the
    calls of the sweep, and records under the sweep's namespace for meters
    other than [best_val], or under [<mode>/lr]. *)
Definition sweep_event (mode : string) (epoch : Z) (ev : event) : Prop :=
  match ev with
  | ModelEval | SetGradEnabled _ | EnableRunningStats
  | CallAT_TRAIN _ _ | CallAT_VAL _ _ => True
  | Progress _ e _ _ _ _ _ => e = epoch
  | AddScalar t _ step =>
      step = epoch
      /\ (t = (mode ++ "/lr")%string
          \/ exists k, k <> "best_val" /\ t = (namespace_of mode ++ k)%string)
  | _ => False
  end.

Definition none_subscript_error : exn :=
  TypeError "'NoneType' object is not subscriptable".

(** The tags of the records a trace holds, in order. *)
Fixpoint tags_of (tr : list event) : list string :=
  match tr with
  | [] => []
  | AddScalar t _ _ :: tr' => t :: tags_of tr'
  | _ :: tr' => tags_of tr'
  end.

(** The checkpoint files a trace holds, in order. *)
Fixpoint saved_paths (tr : list event) : list string :=
  match tr with
  | [] => []
  | Save p :: tr' => p :: saved_paths tr'
  | _ :: tr' => saved_paths tr'
  end.

(** Lines 190-198 replayed over the values a sequence of validation sweeps
    could hand back, one epoch after the other: the tracker values they
    produce. Used to read the decisions of the orchestrator apart from the
    value [adv_learning] actually returns. *)
Fixpoint replay_decisions (C : collaborators) (results : list pyobj)
         (epoch : Z) (best_val : Q) : M (store C) (list Q) :=
  match results with
  | [] => ret []
  | r :: rest =>
      b <- epoch_decisions C r epoch best_val ;;
      bs <- replay_decisions C rest (epoch + 1) b ;;
      ret (b :: bs)
  end.

Definition top1_dict (a : Q) : pyobj := PyDict [("top1_accuracy", a)].

(** The records of one sweep of the toy run over one [toy_batch], under a
    namespace. *)
Definition toy_sweep_records (ns : string) : list event :=
  map (fun e => AddScalar (ns ++ fst e) (Float (snd e)) 0)
      [ ("natural_loss", 1); ("robust_loss", 2);
        ("top1_accuracy", 1 # 2); ("top2_accuracy", 1 # 2);
        ("top3_accuracy", 1); ("top4_accuracy", 1);
        ("top1_adv_accuracy", 1 # 2); ("top2_adv_accuracy", 1 # 2);
        ("top3_adv_accuracy", 1); ("top4_adv_accuracy", 1) ]%Q.

(** What the toy run on a CUDA machine does before the epoch loop. *)
Definition toy_setup_events (title : string) (epochs : Z) : list event :=
  [ Initialize 42;
    NewSummaryWriter ("../test/runs/" ++ title ++ "-2024-01-01_00-00-00");
    NewCifar (VInt 128) (VInt 8);
    NewWideResNet (VInt 16) (VInt 8) (VFloat 0);
    ModelTo "cuda:0"; NewOptimizer "SAM"; Print "using SAM";
    NewScheduler (VInt epochs) ].

(** The training sweep of epoch 0 of the toy run, one batch. *)
Definition toy_train_sweep_events : list event :=
  [ EnableRunningStats; CallAT_TRAIN 0 true;
    Progress 1 0 0 1 2 (Some (1 # 2)) (Some (1 # 2)) ]
  ++ toy_sweep_records "train/"
  ++ [ AddScalar "train/lr" (FloatList [0]) 0 ].

(** The validation sweep of epoch 0 of the toy run, one batch. *)
Definition toy_val_sweep_events : list event :=
  [ ModelEval; SetGradEnabled false; CallAT_VAL 0 false;
    Progress 1 0 0 1 2 (Some (1 # 2)) (Some (1 # 2));
    SetGradEnabled true ]
  ++ toy_sweep_records "adv_val/"
  ++ [ AddScalar "val/lr" (FloatList [1]) 0 ].


(** ** Top-k hits *)

(** The first maximal entry of a non-empty indexed row, read from the
    right: the entry a stable descending sort puts first. *)
Fixpoint first_max (p : nat * Q) (l : list (nat * Q)) : nat * Q :=
  match l with
  | [] => p
  | q :: l' =>
      let m := first_max q l' in
      if Qle_bool (snd m) (snd p) then p else m
  end.

(** [argmax] as the head of the ranking. *)
Definition argmax_of (r : row) : nat := hd 0%nat (ranking r).

Definition top5 (r : row) : list nat := firstn 5 (ranking r).

(** The top-k hit indicator of one sample: 1 when the label is among the
    [k] best-ranked classes, 0 otherwise. *)
Definition topk_hit (k : nat) (r : row) (label : nat) : nat :=
  if existsb (Nat.eqb label) (firstn k (ranking r)) then 1%nat else 0%nat.

(** The indicators of a batch, one per sample. *)
Definition topk_hits (k : nat) (t : scores) (y : list nat) : list nat :=
  map (fun p => topk_hit k (fst p) (snd p)) (combine t y).


(** A prediction tensor fit for a batch of labels: one row per label, at
    least five classes per row. *)
Definition well_shaped (y : list nat) (t : scores) : bool :=
  (length t =? length y)%nat && forallb (fun r => 5 <=? length r)%nat t.

(** The eight top-k meters. *)
Definition topk_meter_names : list string :=
  map acc_name (seq 1 4) ++ map adv_acc_name (seq 1 4).

Definition has_meter (m : meters) (name : string) : bool :=
  match dict_get m name with Some _ => true | None => false end.

Definition has_topk_meters (m : meters) : bool :=
  forallb (has_meter m) topk_meter_names.

(** Between [m] and [m'] the meter [name] received exactly the values [l],
    appended to what it held. *)
Definition cached_since (m m' : meters) (name : string) (l : list Q) : Prop :=
  exists old, dict_get m name = Some old /\ dict_get m' name = Some (old ++ l).

(** ** Sweeps *)

(** [r] is a value the step function of the mode returned for batch [b]. *)
Definition produced (C : collaborators) (mode : string) (b : batch)
           (r : at_result) : Prop :=
  if String.eqb mode "train"
  then exists g m o m' o', AT_TRAIN C g m o b = Ok (m', o', r)
  else exists g m m', AT_VAL C g m b = Ok (m', r).

(** The step functions return predictions fit for the labels of their
    batch. *)
Definition shaped_result (b : batch) (r : at_result) : Prop :=
  well_shaped (y b) (pred r) = true /\ well_shaped (y b) (adv_pred r) = true.

Definition shaped_outputs (C : collaborators) : Prop :=
  (forall g m o b m' o' r,
      AT_TRAIN C g m o b = Ok (m', o', r) -> shaped_result b r)
  /\ (forall g m b m' r, AT_VAL C g m b = Ok (m', r) -> shaped_result b r).

(** The indicators a sweep starting at batch index [idx] hands to a top-k
    meter, given the results [rs] of its step calls: those of the batches
    whose index is a multiple of 10, in batch order. [which] selects the
    clean or the adversarial predictions. *)
Fixpoint sweep_hits (k : nat) (which : at_result -> scores) (idx : nat)
         (data : list batch) (rs : list at_result) : list nat :=
  match data, rs with
  | b :: data', r :: rs' =>
      (if (idx mod 10 =? 0)%nat then topk_hits k (which r) (y b) else [])
      ++ sweep_hits k which (S idx) data' rs'
  | _, _ => []
  end.

(** ** The validation sweep *)

(** Prints, progress lines and records; the other events are calls. *)
Definition is_output (ev : event) : bool :=
  match ev with
  | Print _ | Progress _ _ _ _ _ _ _ | AddScalar _ _ _ => true
  | _ => false
  end.

Definition step_calls (tr : list event) : list event :=
  filter (fun ev => negb (is_output ev)) tr.

Definition is_record (ev : event) : Prop :=
  match ev with AddScalar _ _ _ => True | _ => False end.

(** What a validation sweep must leave alone: the optimizer, the
    parameters of the model and the gradient switch. *)
Definition same_frame (C : collaborators) (s s' : store C) : Prop :=
  optimizer C s' = optimizer C s
  /\ parameters C (model C s') = parameters C (model C s)
  /\ grad_enabled C s' = grad_enabled C s.

(** What a batch of a sweep does to the top-k meters of the dict the sweep
    was handed. *)
Definition batch_caches (C : collaborators) (mode : string)
           (ref : meters_ref) (idx : nat) (b : batch) (s s' : store C) : Prop :=
  exists r,
    produced C mode b r
    /\ has_topk_meters (read_meters C ref s') = true
    /\ forall k, (1 <= k <= 4)%nat ->
         cached_since (read_meters C ref s) (read_meters C ref s')
                      (acc_name k)
                      (if (idx mod 10 =? 0)%nat
                       then map Q_of_nat (topk_hits k (pred r) (y b))
                       else [])
         /\ cached_since (read_meters C ref s) (read_meters C ref s')
                         (adv_acc_name k)
                         (if (idx mod 10 =? 0)%nat
                          then map Q_of_nat (topk_hits k (adv_pred r) (y b))
                          else []).

(** ** Further vocabulary: predictions, sweeps, epochs *)

(** A row of scores too short for [topk(5)]. *)
Definition short_row (r : row) : bool := (length r <? 5)%nat.

(** The values a top-k meter is handed: 0 (miss) or 1 (hit). *)
Definition is_hit (q : Q) : Prop := q = 0%Q \/ q = 1%Q.

(** The calls the body of the batch loop makes for batch [idx], under the
    gradient setting [grad]. *)
Definition step_events (mode : string) (grad : bool) (idx : nat) : list event :=
  if String.eqb mode "train"
  then [EnableRunningStats; CallAT_TRAIN idx grad]
  else [CallAT_VAL idx grad].

(** The batch indices of the progress lines of a trace, in order. *)
Definition progress_indices (tr : list event) : list nat :=
  flat_map (fun ev => match ev with
                      | Progress _ _ i _ _ _ _ => [i]
                      | _ => []
                      end) tr.

(** The multiples of 10 among [idx, idx + n). *)
Definition every_tenth (idx n : nat) : list nat :=
  filter (fun i => (i mod 10 =? 0)%nat) (seq idx n).

(** The gradient switch and the scheduler are as they were. *)
Definition kept (C : collaborators) (s s' : store C) : Prop :=
  grad_enabled C s' = grad_enabled C s
  /\ scheduler_steps C s' = scheduler_steps C s.

(** What a sweep does before and after its batch loop (lines 106-108 and
    126-127), and the gradient setting its batches run under. *)
Definition sweep_prefix (mode : string) : list event :=
  if String.eqb mode "val" then [ModelEval; SetGradEnabled false] else [].

Definition sweep_suffix (mode : string) : list event :=
  if String.eqb mode "val" then [SetGradEnabled true] else [].

Definition sweep_grad (mode : string) (before : bool) : bool :=
  if String.eqb mode "val" then false else before.

(** Between [m] and [m'] the two loss meters received [ln] and [lr]. *)
Definition losses_cached (m m' : meters) (ln lr : list Q) : Prop :=
  cached_since m m' "natural_loss" ln /\ cached_since m m' "robust_loss" lr.

(** The calls of one epoch over [n_train] training and [n_test] test
    batches, entered under the gradient setting [g]. *)
Definition epoch_calls (g : bool) (n_train n_test : nat) : list event :=
  flat_map (step_events "train" g) (seq 0 n_train)
  ++ [SchedulerStep; ModelEval; SetGradEnabled false]
  ++ flat_map (step_events "val" false) (seq 0 n_test)
  ++ [SetGradEnabled true].

Definition is_prefix (l full : list event) : Prop :=
  exists rest, full = l ++ rest.

(** [used_optimizer] of lines 167-178. *)
Definition optimizer_name (sgd : value) : string :=
  if truthy sgd then "SGD" else "SAM".

(* ================================================================== *)
(** * Dictionaries *)

Section DictFacts.

Context {V : Type}.

Lemma dict_get_set_same (d : dict V) k v :
  dict_get (dict_set d k v) k = Some v.
Proof.
  induction d as [|[k' v'] d IH]; simpl.
  - now rewrite String.eqb_refl.
  - destruct (String.eqb k' k) eqn:Hk; simpl; rewrite Hk; auto.
Qed.

Lemma dict_get_set_other (d : dict V) k k' v :
  k <> k' -> dict_get (dict_set d k v) k' = dict_get d k'.
Proof.
  intros Hne. induction d as [|[k0 v0] d IH]; simpl.
  - destruct (String.eqb_spec k k'); congruence.
  - destruct (String.eqb_spec k0 k) as [->|Hk0]; simpl.
    + destruct (String.eqb_spec k k'); congruence.
    + now rewrite IH.
Qed.

Lemma dict_get_set_some (d : dict V) k k' v :
  dict_get d k' <> None -> dict_get (dict_set d k v) k' <> None.
Proof.
  intros H. destruct (String.eqb_spec k k') as [->|Hne].
  - now rewrite dict_get_set_same.
  - now rewrite dict_get_set_other.
Qed.

End DictFacts.

(* ================================================================== *)
(** * The run title *)

Section TitleFacts.

Variable float_str : Q -> string.

Lemma defaults_fold_keeps (parser : list action) (d : dict value) k :
  dict_get d k <> None ->
  dict_get (fold_left (fun d a => dict_set d (dest a) (default a)) parser d) k
  <> None.
Proof.
  revert d. induction parser as [|a parser IH]; intros d H; simpl; auto.
  apply IH. now apply dict_get_set_some.
Qed.

Lemma defaults_of_known (parser : list action) k :
  existsb (String.eqb k) (map dest parser) = true ->
  dict_get (defaults_of parser) k <> None.
Proof.
  unfold defaults_of. generalize (@nil (string * value)).
  induction parser as [|a parser IH]; intros d H; simpl in *.
  - discriminate.
  - apply orb_true_iff in H. destruct H as [H|H].
    + apply String.eqb_eq in H. subst k.
      apply defaults_fold_keeps. rewrite dict_get_set_same. discriminate.
    + now apply IH.
Qed.

(** The loop appends, in namespace order, the entry of every listed
    option and nothing else. *)
Lemma title_loop_filter (defaults : dict value) (items : list (string * value)) :
  forall titles,
    forallb (fun it => match dict_get defaults (fst it) with
                       | Some _ => true | None => false end) items = true ->
    title_loop float_str defaults items titles
    = Ok (titles ++ map (fun it => title_entry float_str (fst it) (snd it))
                        (filter (listed defaults) items)).
Proof.
  induction items as [|[arg v] items IH]; intros titles H; simpl in *.
  - now rewrite app_nil_r.
  - apply andb_true_iff in H. destruct H as [Hd H].
    unfold dict_item, listed; simpl.
    destruct (dict_get defaults arg) as [dflt|]; [|discriminate]. simpl.
    destruct (py_ne v dflt); simpl.
    + rewrite IH by assumption. now rewrite <- app_assoc.
    + destruct (is_True v); simpl.
      * rewrite IH by assumption. now rewrite <- app_assoc.
      * now apply IH.
Qed.

End TitleFacts.

(** C8. For a namespace whose options are all actions of the parser,
    [get_argument_title] returns the comma-joined ["name=value"] entries, in
    namespace order, of exactly the options whose value differs from the
    parser's default or is the boolean [True]. *)
Theorem get_argument_title_lists_changed_or_true
        (float_str : Q -> string) (parser : list action) (args : Namespace) :
  known_options parser args = true ->
  get_argument_title float_str parser args
  = Ok (join ","
          (map (fun it => title_entry float_str (fst it) (snd it))
               (filter (fun it =>
                          match dict_get (defaults_of parser) (fst it) with
                          | Some dflt => py_ne (snd it) dflt || is_True (snd it)
                          | None => false
                          end) args))).
Proof.
  intros H. unfold get_argument_title.
  rewrite title_loop_filter.
  - reflexivity.
  - unfold known_options, keys in H. rewrite forallb_forall in *.
    intros it Hin.
    assert (Hk : existsb (String.eqb (fst it)) (map dest parser) = true)
      by (apply H, in_map, Hin).
    apply defaults_of_known in Hk.
    destruct (dict_get (defaults_of parser) (fst it)); congruence.
Qed.

(** At an all-default command line the title is the boolean left at its
    [True] default; with [--epochs 25 --sgd] the changed option and the
    raised flag join it. *)
Lemma get_argument_title_witness :
  get_argument_title (fun _ => "<float>") parser_actions default_namespace
  = Ok "adaptive=True"
  /\ get_argument_title (fun _ => "<float>") parser_actions
       (dict_set (args_epochs 25) "sgd" (VBool true))
     = Ok "adaptive=True,epochs=25,sgd=True".
Proof.
  split.
  - rewrite (@get_argument_title_lists_changed_or_true
               (fun _ => "<float>") parser_actions default_namespace);
      reflexivity.
  - rewrite (@get_argument_title_lists_changed_or_true
               (fun _ => "<float>") parser_actions
               (dict_set (args_epochs 25) "sgd" (VBool true)));
      reflexivity.
Defined.

(* ================================================================== *)
(** * What a computation appends to the trace *)

Section Emits.

Context {S : Type}.
Variable P : event -> Prop.

Lemma emits_ret {A} (Q : A -> Prop) (a : A) : Q a -> emits P Q (@ret S A a).
Proof.
  intros H tr s. simpl. split; auto. exists []. now rewrite app_nil_r.
Qed.

Lemma emits_raise {A} (Q : A -> Prop) e : emits P Q (@raise S A e).
Proof. intros tr s. simpl. exists []. now rewrite app_nil_r. Qed.

Lemma emits_lift {A} (r : res A) : emits P any (@lift S A r).
Proof.
  destruct r; simpl; [now apply emits_ret | apply emits_raise].
Qed.

Lemma emits_emit ev : P ev -> emits P any (@emit S ev).
Proof.
  intros H tr s. simpl. split; [exact I|]. exists [ev]. auto.
Qed.

Lemma emits_gets {A} (f : S -> A) : emits P any (gets f).
Proof.
  intros tr s. simpl. split; [exact I|]. exists []. now rewrite app_nil_r.
Qed.

Lemma emits_modify (f : S -> S) : emits P any (modify f).
Proof.
  intros tr s. simpl. split; [exact I|]. exists []. now rewrite app_nil_r.
Qed.

Lemma emits_bind {A B} (Q1 : A -> Prop) (Q2 : B -> Prop)
      (m : M S A) (k : A -> M S B) :
  emits P Q1 m -> (forall a, Q1 a -> emits P Q2 (k a)) ->
  emits P Q2 (bind m k).
Proof.
  intros Hm Hk tr s. unfold bind. specialize (Hm tr s).
  destruct (m tr s) as [a tr1 s1|e tr1].
  - destruct Hm as [Ha [l1 [-> Hl1]]].
    specialize (Hk a Ha (tr ++ l1) s1).
    destruct (k a (tr ++ l1) s1) as [b tr2 s2|e tr2].
    + destruct Hk as [Hb [l2 [-> Hl2]]]. split; auto.
      exists (l1 ++ l2). rewrite app_assoc. split; auto.
      apply Forall_app; auto.
    + destruct Hk as [l2 [-> Hl2]].
      exists (l1 ++ l2). rewrite app_assoc. split; auto.
      apply Forall_app; auto.
  - exact Hm.
Qed.

Lemma emits_weaken {A} (Q Q' : A -> Prop) (m : M S A) :
  emits P Q m -> (forall a, Q a -> Q' a) -> emits P Q' m.
Proof.
  intros Hm HQ tr s. specialize (Hm tr s).
  destruct (m tr s); intuition.
Qed.

Lemma emits_seq {A B} (Q : B -> Prop) (m : M S A) (k : A -> M S B) :
  emits P any m -> (forall a, emits P Q (k a)) -> emits P Q (bind m k).
Proof. intros Hm Hk. eapply emits_bind; eauto. Qed.

End Emits.

(** One step of a proof that a chain of binds only appends [P]-events. *)
Ltac emits_step :=
  first
    [ apply emits_raise
    | apply emits_lift
    | apply emits_gets
    | apply emits_modify
    | apply emits_emit; simpl; try exact I
    | apply emits_ret; try exact I
    | apply emits_seq; [| intros ? ]
    | match goal with
      | |- emits _ _ (if ?b then _ else _) => destruct b
      | |- emits _ _ (let _ := _ in _) => cbv zeta
      | |- emits _ _ (match ?d with Some _ => _ | None => _ end) => destruct d
      end ].

Ltac emits_chain := repeat emits_step.

(** Running the monad symbolically. *)
Ltac run_monad :=
  cbv beta iota zeta delta [bind ret gets modify emit lift raise fst snd].

(** Lookups through a stack of updates with literal keys. *)
Ltac dict_simpl :=
  repeat first
    [ rewrite dict_get_set_same
    | rewrite dict_get_set_other by (let E := fresh in intro E; discriminate E) ].

Lemma emits_mono {S A} (P P' : event -> Prop) (Q : A -> Prop) (m : M S A) :
  (forall ev, P ev -> P' ev) -> emits P Q m -> emits P' Q m.
Proof.
  intros HP Hm tr s. specialize (Hm tr s).
  destruct (m tr s) as [a tr' s'|e tr'].
  - destruct Hm as [Ha [l [-> Hl]]]. split; auto. exists l. split; auto.
    eapply Forall_impl; eauto.
  - destruct Hm as [l [-> Hl]]. exists l. split; auto.
    eapply Forall_impl; eauto.
Qed.

(* ================================================================== *)
(** * The footprint of a sweep *)

Section SweepFootprint.

Variable C : collaborators.
Variable args : Namespace.

Lemma batch_body_footprint mode ref len epoch idx b :
  emits (sweep_event mode epoch) any (batch_body C mode ref len epoch idx b).
Proof.
  unfold batch_body, record_batch, print_progress, do_enable_running_stats,
    call_AT_TRAIN, call_AT_VAL.
  emits_chain; reflexivity.
Qed.

Lemma batch_loop_footprint mode ref len epoch data :
  forall idx,
    emits (sweep_event mode epoch) any
          (batch_loop C mode ref len epoch idx data).
Proof.
  induction data as [|b data IH]; intros idx; simpl.
  - now apply emits_ret.
  - apply emits_seq; [apply batch_body_footprint | intros _; apply IH].
Qed.

Lemma log_results_footprint mode epoch items :
  emits (sweep_event mode epoch) any (log_results C mode epoch items).
Proof.
  induction items as [|[k v] items IH]; simpl.
  - now apply emits_ret.
  - apply emits_seq; [| intros _; exact IH].
    destruct (String.eqb_spec k "best_val") as [->|Hk]; simpl.
    + now apply emits_ret.
    + unfold sweep_event, namespace_of.
      destruct (String.eqb mode "train"); apply emits_emit;
        (split; [reflexivity | right; exists k; auto]).
Qed.

(** A call of [adv_learning] that returns evaluates to [None], whatever
    the mode, and appends sweep events only. *)
Lemma adv_learning_footprint mode data ref epoch :
  emits (sweep_event mode epoch) (fun a => a = PyNone)
        (adv_learning C args mode data ref epoch).
Proof.
  unfold adv_learning, do_model_eval, set_grad_enabled.
  apply emits_seq; [emits_chain | intros _].
  apply emits_seq; [apply batch_loop_footprint | intros _].
  apply emits_seq; [emits_chain | intros _].
  apply emits_seq; [emits_chain | intros m]. cbv zeta.
  apply emits_seq; [emits_chain | intros _].
  apply emits_seq; [apply log_results_footprint | intros _].
  apply emits_seq; [emits_chain | intros n].
  apply emits_seq; [apply emits_emit; simpl; split; [reflexivity | now left]
                   | intros _].
  now apply emits_ret.
Qed.

Lemma sweep_event_unfinished mode epoch ev :
  mode = "train" \/ mode = "val" ->
  sweep_event mode epoch ev -> unfinished_epoch_event epoch ev.
Proof.
  intros Hm; destruct ev; simpl; auto.
  intros [-> [->|[k [Hk ->]]]]; (split; [| reflexivity]);
    destruct Hm as [->| ->]; cbn; discriminate.
Qed.

Lemma best_checkpoint_None best_val :
  best_checkpoint C PyNone best_val = raise none_subscript_error.
Proof. reflexivity. Qed.

Section Epochs.

Variable E : environment.

Lemma epoch_sweeps_footprint epoch best_val :
  emits (unfinished_epoch_event epoch) (fun a => a = PyNone)
        (epoch_sweeps C args E epoch best_val).
Proof.
  unfold epoch_sweeps, scheduler_step.
  apply emits_seq; [emits_chain | intros vm].
  apply emits_seq; [emits_chain | intros vm'].
  apply emits_seq; [emits_chain | intros _].
  apply emits_seq.
  { eapply emits_weaken with (Q := fun a => a = PyNone); [| now intros].
    eapply emits_mono; [| apply adv_learning_footprint].
    intros ev; apply sweep_event_unfinished; now left. }
  intros _.
  apply emits_seq; [emits_chain | intros _].
  eapply emits_mono; [| apply adv_learning_footprint].
  intros ev; apply sweep_event_unfinished; now right.
Qed.

(** No iteration of the epoch loop returns. *)
Lemma epoch_body_never_returns epoch best_val :
  emits (unfinished_epoch_event epoch) (fun _ => False)
        (epoch_body C args E epoch best_val).
Proof.
  unfold epoch_body.
  eapply emits_bind; [apply epoch_sweeps_footprint |].
  intros results ->. unfold epoch_decisions.
  rewrite best_checkpoint_None.
  intros tr s. simpl. exists []. now rewrite app_nil_r.
Qed.

Lemma epoch_loop_footprint epoch rest best_val :
  emits (unfinished_epoch_event epoch) (fun _ => False)
        (epoch_loop C args E (epoch :: rest) best_val).
Proof.
  simpl. eapply emits_bind; [apply epoch_body_never_returns |].
  intros a [].
Qed.

Lemma epoch_body_after_sweeps epoch best_val tr s :
  epoch_body C args E epoch best_val tr s
  = match epoch_sweeps C args E epoch best_val tr s with
    | Returned _ tr1 _ => Crashed none_subscript_error tr1
    | Crashed e tr1 => Crashed e tr1
    end.
Proof.
  unfold epoch_body, bind at 1.
  pose proof (epoch_sweeps_footprint epoch best_val tr s) as H.
  destruct (epoch_sweeps C args E epoch best_val tr s) as [a tr1 s1|e tr1];
    [| reflexivity].
  destruct H as [-> _]. reflexivity.
Qed.

End Epochs.

End SweepFootprint.

(* ================================================================== *)
(** * The run as a whole *)

Lemma emits_trace {S A} (P : event -> Prop) (Q : A -> Prop) (m : M S A) tr s :
  emits P Q m -> Forall P tr -> Forall P (trace_of (m tr s)).
Proof.
  intros Hm Htr. specialize (Hm tr s).
  destruct (m tr s) as [a tr' s'|e tr']; simpl.
  - destruct Hm as [_ [l [-> Hl]]]. apply Forall_app; auto.
  - destruct Hm as [l [-> Hl]]. apply Forall_app; auto.
Qed.

Lemma emits_never_returns {S A} (P : event -> Prop) (m : M S A) tr s :
  emits P (fun _ => False) m -> returned (m tr s) = false.
Proof.
  intros Hm. specialize (Hm tr s).
  destruct (m tr s); [destruct Hm as [[] _] | reflexivity].
Qed.

Lemma range_head n z rest : range n = z :: rest -> z = 0%Z.
Proof.
  unfold range. destruct (Z.to_nat n); simpl; [discriminate|].
  now intros [= <- _].
Qed.

Section RunFacts.

Variable C : collaborators.
Variable E : environment.
Variable args : Namespace.

Lemma setup_footprint :
  emits (unfinished_epoch_event 0) any (setup C E args).
Proof.
  unfold setup, select_device, read_device, make_optimizer.
  emits_chain.
Qed.

Lemma loop_footprint :
  emits (unfinished_epoch_event 0) any
        (epochs <- lift (getattr args "epochs") ;;
         n <- lift (as_int epochs) ;;
         epoch_loop C args E (range n) 0 ;;;
         ret tt).
Proof.
  apply emits_seq; [emits_chain | intros epochs].
  apply emits_seq; [emits_chain | intros n].
  apply emits_seq; [| intros _; now apply emits_ret].
  destruct (range n) as [|z rest] eqn:Hr.
  - simpl. now apply emits_ret.
  - apply range_head in Hr. subst z.
    eapply emits_weaken; [apply epoch_loop_footprint | intros _ []].
Qed.

(** Whatever the collaborators, the machine and the command line, a run
    logs nothing beyond the sweeps of epoch 0: no checkpoint, no tracker
    record, no record or progress line of a later epoch. *)
Lemma main_footprint :
  Forall (unfinished_epoch_event 0) (trace_of (main C E args)).
Proof.
  unfold main.
  pose proof (setup_footprint [] tt) as Hs.
  destruct (setup C E args [] tt) as [s0 tr u|e tr].
  - destruct Hs as [_ [l [-> Hl]]].
    eapply emits_trace; [apply loop_footprint | exact Hl].
  - destruct Hs as [l [-> Hl]]. exact Hl.
Qed.

Lemma main_never_saves p : ~ In (Save p) (trace_of (main C E args)).
Proof.
  intros Hin. pose proof main_footprint as H.
  rewrite Forall_forall in H. exact (H _ Hin).
Qed.

Lemma main_never_logs_tracker v step :
  ~ In (AddScalar "val/best_val" v step) (trace_of (main C E args)).
Proof.
  intros Hin. pose proof main_footprint as H.
  rewrite Forall_forall in H. destruct (H _ Hin) as [Hne _]. now apply Hne.
Qed.

(** Without CUDA the setup stops at the read of [device]. *)
Lemma setup_without_cuda :
  cuda_is_available E = false ->
  emits before_device (fun _ => False) (setup C E args).
Proof.
  intros Hc. unfold setup, select_device. rewrite Hc.
  apply emits_seq; [emits_chain | intros title].
  apply emits_seq; [emits_chain | intros _].
  eapply emits_bind with (Q1 := fun d => d = None).
  { apply emits_seq; [emits_chain | intros _]. now apply emits_ret. }
  intros device ->. cbv zeta.
  apply emits_seq; [emits_chain | intros _].
  apply emits_seq; [emits_chain | intros batch_size].
  apply emits_seq; [emits_chain | intros threads].
  apply emits_seq; [emits_chain | intros _].
  apply emits_seq; [emits_chain | intros depth].
  apply emits_seq; [emits_chain | intros width_factor].
  apply emits_seq; [emits_chain | intros dropout].
  apply emits_seq; [emits_chain | intros net].
  apply emits_seq; [emits_chain | intros _].
  intros tr s. simpl. exists []. now rewrite app_nil_r.
Qed.

End RunFacts.

(* ================================================================== *)
(** * C1: the value of [adv_learning] and the subscript of line 191 *)

(** C1. Whatever the mode, a call of [adv_learning] that returns evaluates
    to [None]; an iteration of the epoch loop whose sweeps return therefore
    stops at [results["top1_accuracy"]] with the error of subscripting
    [None] (and otherwise stops where a sweep stopped); so no iteration
    returns, and no run writes a checkpoint. *)
Theorem adv_learning_returns_None_and_epoch_fails
        (C : collaborators) (E : environment) (args : Namespace) :
  (forall mode data ref epoch tr s,
      match adv_learning C args mode data ref epoch tr s with
      | Returned a _ _ => a = PyNone
      | Crashed _ _ => True
      end)
  /\ (forall epoch best_val tr s,
         epoch_body C args E epoch best_val tr s
         = match epoch_sweeps C args E epoch best_val tr s with
           | Returned _ tr1 _ =>
               Crashed (TypeError "'NoneType' object is not subscriptable") tr1
           | Crashed e tr1 => Crashed e tr1
           end)
  /\ (forall epoch rest best_val tr s,
         returned (epoch_loop C args E (epoch :: rest) best_val tr s) = false)
  /\ saved_paths (trace_of (main C E args)) = [].
Proof.
  repeat split.
  - intros mode data ref epoch tr s.
    pose proof (adv_learning_footprint C args mode data ref epoch tr s) as H.
    destruct (adv_learning C args mode data ref epoch tr s); [apply H | exact I].
  - intros. apply epoch_body_after_sweeps.
  - intros. eapply emits_never_returns. apply epoch_loop_footprint.
  - pose proof (main_footprint C E args) as H.
    induction (trace_of (main C E args)) as [|ev tr IH]; [reflexivity|].
    inversion H as [|? ? Hev Htr]; subst.
    destruct ev; simpl in *; auto. contradiction.
Qed.

(** On the toy run with CUDA, three epochs asked: both sweeps of epoch 0
    return, and the run ends at line 191. *)
Lemma adv_learning_returns_None_witness :
  main toy (toy_env true 1 1) (args_epochs 3)
  = Crashed (TypeError "'NoneType' object is not subscriptable")
            (toy_setup_events "adaptive=True,epochs=3" 3
             ++ toy_train_sweep_events ++ [SchedulerStep]
             ++ toy_val_sweep_events)
  /\ returned (epoch_loop toy (args_epochs 3) (toy_env true 1 1)
                          (range 3) 0 [] toy_store) = false.
Proof.
  split.
  - vm_compute. reflexivity.
  - exact (proj1 (proj2 (proj2 (adv_learning_returns_None_and_epoch_fails
                                  toy (toy_env true 1 1) (args_epochs 3))))
                 0%Z [1; 2]%Z 0%Q [] toy_store).
Defined.

(* ================================================================== *)
(** * C2: the interval checkpoint of lines 195-198 *)

(** Line 197 as written: from epoch 0 on, the second operand compares
    [epoch + 1] with 0 and never holds. *)
Lemma interval_due_only_first (epoch : Z) :
  (0 <= epoch)%Z -> interval_checkpoint_due epoch = (epoch =? 0)%Z.
Proof.
  intros H. unfold interval_checkpoint_due.
  replace (1 mod 10)%Z with 1%Z by reflexivity.
  destruct (Z.eqb_spec (epoch + 1) 0); [lia | apply orb_false_r].
Qed.



(* ================================================================== *)
(** * C9: a machine without CUDA *)

(** C9, as stated, fails: on a machine without CUDA the run prints a
    warning, goes on to create the writer and the dataset and builds the
    model, and only then stops, at the read of the unbound [device]. *)
Lemma device_unavailable_counterexample :
  main toy (toy_env false 1 1) default_namespace
  = Crashed (UnboundLocalError "device")
      [ Initialize 42;
        Print "Warning: torch.cuda.is_available is not True";
        NewSummaryWriter "../test/runs/adaptive=True-2024-01-01_00-00-00";
        NewCifar (VInt 128) (VInt 8);
        NewWideResNet (VInt 16) (VInt 8) (VFloat 0) ].
Proof. vm_compute. reflexivity. Qed.

(** C9, amended. Without CUDA, [main] does not stop at the device test: it
    never returns and does nothing beyond the setup steps that precede the
    move of the model to the device; with a title, the attributes the setup
    reads and a model constructor that returns, it prints the warning,
    creates the writer and the dataset, builds the model and then stops at
    the read of [device], before any optimizer or sweep. *)
Theorem device_unavailable_warns_then_stops
        (C : collaborators) (E : environment) (args : Namespace) :
  cuda_is_available E = false ->
  returned (main C E args) = false
  /\ Forall before_device (trace_of (main C E args))
  /\ (forall title batch_size threads depth width_factor dropout net,
         get_argument_title (float_str C) parser_actions args = Ok title ->
         getattr args "batch_size" = Ok batch_size ->
         getattr args "threads" = Ok threads ->
         getattr args "depth" = Ok depth ->
         getattr args "width_factor" = Ok width_factor ->
         getattr args "dropout" = Ok dropout ->
         WideResNet C depth width_factor dropout = Ok net ->
         main C E args
         = Crashed (UnboundLocalError "device")
             [ Initialize 42;
               Print "Warning: torch.cuda.is_available is not True";
               NewSummaryWriter
                 (path_join [dir_prefix; "runs";
                             (title ++ "-" ++ start_time_str E)%string]);
               NewCifar batch_size threads;
               NewWideResNet depth width_factor dropout ]).
Proof.
  intros Hc. pose proof (setup_without_cuda C E args Hc [] tt) as Hs.
  repeat split.
  - unfold main. destruct (setup C E args [] tt); [destruct Hs as [[] _] | reflexivity].
  - unfold main. destruct (setup C E args [] tt) as [s0 tr u|e tr].
    + destruct Hs as [[] _].
    + destruct Hs as [l [-> Hl]]. exact Hl.
  - intros title batch_size threads depth width_factor dropout net
           Ht Hb Hth Hd Hw Hdr Hnet.
    unfold main, setup, select_device, bind. cbn [get_arguments fst].
    rewrite Ht, Hc. simpl. rewrite Hb. simpl. rewrite Hth. simpl.
    rewrite Hd. simpl. rewrite Hw. simpl. rewrite Hdr. simpl.
    rewrite Hnet. reflexivity.
Qed.

(** The toy run on a machine without CUDA. *)
Lemma device_unavailable_witness :
  returned (main toy (toy_env false 1 1) default_namespace) = false
  /\ Forall before_device (trace_of (main toy (toy_env false 1 1) default_namespace)).
Proof.
  pose proof (device_unavailable_warns_then_stops
                toy (toy_env false 1 1) default_namespace eq_refl) as H.
  exact (conj (proj1 H) (proj1 (proj2 H))).
Defined.

(* ================================================================== *)
(** * C3, C7, C10: what a run does after the sweeps of epoch 0 *)

(** C3 (the code departs from it). A five-epoch toy run measures a
    validation top-1 accuracy of 1/2 in epoch 0, above the initial tracker
    0.0, and still writes no [best.pth]: it stops at line 191. *)
Theorem best_checkpoint_never_written :
  main toy (toy_env true 1 1) (args_epochs 5)
  = Crashed (TypeError "'NoneType' object is not subscriptable")
            (toy_setup_events "adaptive=True,epochs=5" 5
             ++ toy_train_sweep_events ++ [SchedulerStep]
             ++ toy_val_sweep_events)
  /\ In (AddScalar "adv_val/top1_accuracy" (Float (1 # 2)) 0)
        (trace_of (main toy (toy_env true 1 1) (args_epochs 5)))
  /\ saved_paths (trace_of (main toy (toy_env true 1 1) (args_epochs 5))) = [].
Proof.
  split; [vm_compute; reflexivity | split; [| vm_compute; reflexivity]].
  vm_compute.
  repeat match goal with
         | |- _ \/ _ => first [left; reflexivity | right]
         end.
Qed.

(** Lines 190-198 themselves, handed the dicts a validation sweep computes
    (accuracies 0.5, 0.4, 0.6, 0.6, 0.7), track 0.5, 0.5, 0.6, 0.6, 0.7
    and write [best.pth] in epochs 0, 2 and 4: the comparison is strict. *)
Lemma decisions_on_returned_dicts :
  replay_decisions toy (map top1_dict [1 # 2; 2 # 5; 3 # 5; 3 # 5; 7 # 10]%Q)
                   0 0 [] toy_store
  = Returned [1 # 2; 1 # 2; 3 # 5; 3 # 5; 7 # 10]%Q
      [ Save "../test/checkpoint/best.pth";
        AddScalar "val/best_val" (Float (1 # 2)) 0;
        Save "../test/checkpoint/epoch_0.pth";
        AddScalar "val/best_val" (Float (1 # 2)) 1;
        Save "../test/checkpoint/best.pth";
        AddScalar "val/best_val" (Float (3 # 5)) 2;
        AddScalar "val/best_val" (Float (3 # 5)) 3;
        Save "../test/checkpoint/best.pth";
        AddScalar "val/best_val" (Float (7 # 10)) 4 ]
      toy_store.
Proof. vm_compute. reflexivity. Qed.

(** C7 (the code departs from it). No run ever logs a record under
    [val/best_val]; the records of a one-epoch toy run are those of the two
    sweeps, under [train/], [adv_val/], [train/lr] and [val/lr], without the
    [best_val] meter. *)
Theorem tracker_record_never_logged
        (C : collaborators) (E : environment) (args : Namespace) :
  (forall v step,
      ~ In (AddScalar "val/best_val" v step) (trace_of (main C E args)))
  /\ tags_of (trace_of (main toy (toy_env true 1 1) (args_epochs 1)))
     = map (fun n => "train/" ++ n)%string meter_names ++ ["train/lr"]
       ++ map (fun n => "adv_val/" ++ n)%string meter_names ++ ["val/lr"].
Proof.
  split.
  - intros v step. apply main_never_logs_tracker.
  - vm_compute. reflexivity.
Qed.

(** C10 (the code departs from it). A run does nothing beyond the sweeps of
    epoch 0: a two-epoch toy run performs the training sweep, one scheduler
    step and the validation sweep of epoch 0 and stops at line 191, before
    the tracker comparison, the interval checkpoint and epoch 1. *)
Theorem epoch_loop_stops_in_first_epoch
        (C : collaborators) (E : environment) (args : Namespace) :
  Forall (unfinished_epoch_event 0) (trace_of (main C E args))
  /\ main toy (toy_env true 1 1) (args_epochs 2)
     = Crashed (TypeError "'NoneType' object is not subscriptable")
               (toy_setup_events "adaptive=True,epochs=2" 2
                ++ toy_train_sweep_events ++ [SchedulerStep]
                ++ toy_val_sweep_events).
Proof.
  split.
  - apply main_footprint.
  - vm_compute. reflexivity.
Qed.

(* ================================================================== *)
(** * The ranking behind [topk] and [argmax] *)

Lemma Qle_bool_total a b : Qle_bool a b = false -> Qle_bool b a = true.
Proof.
  intros H. apply Qle_bool_iff.
  destruct (Qlt_le_dec a b) as [Hlt|Hle].
  - apply Qlt_le_weak in Hlt.
    apply Qle_bool_iff in Hlt. congruence.
  - exact Hle.
Qed.

Lemma Qle_bool_trans a b c :
  Qle_bool a b = true -> Qle_bool b c = true -> Qle_bool a c = true.
Proof.
  rewrite !Qle_bool_iff. apply Qle_trans.
Qed.

Lemma Qle_bool_false_trans a b c :
  Qle_bool a b = false -> Qle_bool c b = true -> Qle_bool a c = false.
Proof.
  intros Hab Hcb. destruct (Qle_bool a c) eqn:Hac; [|reflexivity].
  rewrite (Qle_bool_trans _ _ _ Hac Hcb) in Hab. discriminate.
Qed.

Lemma insert_desc_head p q l :
  hd p (insert_desc p (q :: l)) = if Qle_bool (snd q) (snd p) then p else q.
Proof. simpl. destruct (Qle_bool (snd q) (snd p)); reflexivity. Qed.

Lemma insert_desc_nonempty p l : insert_desc p l <> [].
Proof. destruct l; simpl; [discriminate|]. destruct (Qle_bool _ _); discriminate. Qed.

Lemma sort_desc_head p l d :
  hd d (sort_desc (p :: l)) = first_max p l.
Proof.
  revert p d. induction l as [|q l IH]; intros p d.
  - reflexivity.
  - change (sort_desc (p :: q :: l)) with (insert_desc p (sort_desc (q :: l))).
    specialize (IH q p).
    destruct (sort_desc (q :: l)) as [|h t] eqn:Hs.
    + exfalso. change (sort_desc (q :: l)) with (insert_desc q (sort_desc l)) in Hs.
      now apply insert_desc_nonempty in Hs.
    + simpl in IH. subst h. simpl.
      destruct (Qle_bool (snd (first_max q l)) (snd p)); reflexivity.
Qed.

(** The scan of [argmax] agrees with the first maximum. *)
Lemma first_max_skip b bv i v l :
  Qle_bool v bv = true ->
  first_max (b, bv) ((i, v) :: l) = first_max (b, bv) l.
Proof.
  intros Hv. destruct l as [|q l]; simpl.
  - simpl in *. now rewrite Hv.
  - destruct (Qle_bool (snd (first_max q l)) v) eqn:H1; simpl.
    + rewrite Hv. now rewrite (Qle_bool_trans _ _ _ H1 Hv).
    + reflexivity.
Qed.

Lemma first_max_ge p l : Qle_bool (snd p) (snd (first_max p l)) = true.
Proof.
  revert p. induction l as [|q l IH]; intros p; simpl.
  - apply Qle_bool_iff, Qle_refl.
  - destruct (Qle_bool (snd (first_max q l)) (snd p)) eqn:H.
    + apply Qle_bool_iff, Qle_refl.
    + now apply Qle_bool_total.
Qed.

Lemma first_max_take b bv i v l :
  Qle_bool v bv = false ->
  first_max (b, bv) ((i, v) :: l) = first_max (i, v) l.
Proof.
  intros Hv. cbn [first_max snd].
  pose proof (first_max_ge (i, v) l) as Hge. cbn [snd] in Hge.
  destruct (Qle_bool (snd (first_max (i, v) l)) bv) eqn:H; [|reflexivity].
  rewrite (Qle_bool_trans _ _ _ Hge H) in Hv. discriminate.
Qed.

Lemma argmax_scan_first_max l :
  forall i best bv,
    argmax_scan l i best bv = fst (first_max (best, bv) (indexed_from i l)).
Proof.
  induction l as [|v l IH]; intros i best bv.
  - reflexivity.
  - cbn [argmax_scan indexed_from]. unfold Qltb.
    destruct (Qle_bool v bv) eqn:Hv; cbn [negb].
    + rewrite first_max_skip by assumption. apply IH.
    + rewrite first_max_take by assumption. apply IH.
Qed.

Lemma ranking_head v r :
  hd 0%nat (ranking (v :: r)) = argmax_scan r 1 0 v.
Proof.
  unfold ranking. cbn [indexed_from].
  rewrite argmax_scan_first_max.
  rewrite <- (sort_desc_head (0%nat, v) (indexed_from 1 r) (0%nat, v)).
  destruct (sort_desc ((0%nat, v) :: indexed_from 1 r)); reflexivity.
Qed.

Lemma insert_desc_perm p l : Permutation (insert_desc p l) (p :: l).
Proof.
  induction l as [|h t IH]; simpl; [reflexivity|].
  destruct (Qle_bool (snd h) (snd p)); [reflexivity|].
  rewrite IH. apply perm_swap.
Qed.

Lemma sort_desc_perm l : Permutation (sort_desc l) l.
Proof.
  induction l as [|p l IH]; simpl; [reflexivity|].
  rewrite insert_desc_perm. now constructor.
Qed.

Lemma indexed_from_fst r : forall i, map fst (indexed_from i r) = seq i (length r).
Proof. induction r as [|v r IH]; intros i; simpl; [reflexivity|]. now rewrite IH. Qed.

Lemma ranking_perm r : Permutation (ranking r) (seq 0 (length r)).
Proof.
  unfold ranking. rewrite <- indexed_from_fst.
  apply Permutation_map, sort_desc_perm.
Qed.

Lemma ranking_NoDup r : NoDup (ranking r).
Proof.
  eapply Permutation_NoDup; [symmetry; apply ranking_perm | apply seq_NoDup].
Qed.

Lemma ranking_length r : length (ranking r) = length r.
Proof. rewrite (Permutation_length (ranking_perm r)). apply length_seq. Qed.


(* ================================================================== *)
(** * The column sums of [calculate_acc_adv_acc] *)

Lemma map_res_total {A B} (f : A -> res B) (g : A -> B) (l : list A) :
  Forall (fun a => f a = Ok (g a)) l -> map_res f l = Ok (map g l).
Proof.
  induction 1 as [|a l Ha _ IH]; simpl; [reflexivity|].
  now rewrite Ha, IH.
Qed.

Lemma well_shaped_length y t : well_shaped y t = true -> length y = length t.
Proof.
  unfold well_shaped. intros H. apply andb_true_iff in H.
  destruct H as [H _]. apply Nat.eqb_eq in H. congruence.
Qed.

Lemma well_shaped_rows y t :
  well_shaped y t = true -> Forall (fun r => 5 <= length r)%nat t.
Proof.
  unfold well_shaped. intros H. apply andb_true_iff in H.
  destruct H as [_ H]. rewrite forallb_forall in H. apply Forall_forall.
  intros r Hr. apply Nat.leb_le. auto.
Qed.

Lemma topk_well_shaped y t :
  well_shaped y t = true -> topk 5 t = Ok (map top5 t).
Proof.
  intros H. apply map_res_total.
  eapply Forall_impl; [| apply (well_shaped_rows _ _ H)].
  intros r Hr. cbv beta in Hr. unfold topk_row.
  destruct (Nat.ltb_spec (length r) 5); [lia | reflexivity].
Qed.

Lemma expand_labels_well_shaped y t :
  well_shaped y t = true -> expand_labels (length t) y = Ok y.
Proof.
  intros H. unfold expand_labels.
  rewrite (well_shaped_length _ _ H), Nat.eqb_refl. reflexivity.
Qed.

Lemma combine_map_l {A B D} (f : A -> B) (l : list A) (l' : list D) :
  combine (map f l) l' = map (fun p => (f (fst p), snd p)) (combine l l').
Proof.
  revert l'. induction l as [|a l IH]; intros [|d l']; simpl; try reflexivity.
  now rewrite IH.
Qed.

Lemma add_rows_map {A} (f g : A -> nat) (l : list A) :
  add_rows (map f l) (map g l) = map (fun a => f a + g a)%nat l.
Proof. induction l as [|a l IH]; simpl; [reflexivity|]. now rewrite IH. Qed.

Lemma fold_add_rows {A J} (g : J -> A -> nat) (cols : list A) (js : list J) :
  forall f,
    fold_left add_rows (map (fun j => map (g j) cols) js) (map f cols)
    = map (fun a => f a + list_sum (map (fun j => g j a) js))%nat cols.
Proof.
  induction js as [|j js IH]; intros f; simpl.
  - apply map_ext. intros a. lia.
  - rewrite add_rows_map, IH. apply map_ext. intros a. lia.
Qed.

Lemma repeat_map {A} (cols : list A) :
  repeat 0%nat (length cols) = map (fun _ => 0%nat) cols.
Proof. induction cols; simpl; congruence. Qed.

Lemma nth_seq_firstn (l : list nat) k :
  (k <= length l)%nat ->
  map (fun j => nth j l 0%nat) (seq 0 k) = firstn k l.
Proof.
  revert k. induction l as [|a l IH]; intros k Hk.
  - simpl in Hk. assert (k = 0%nat) by lia. subst. reflexivity.
  - destruct k as [|k]; [reflexivity|]. simpl in Hk.
    cbn [seq map nth firstn]. f_equal.
    rewrite <- seq_shift, map_map. cbn [nth].
    apply IH. lia.
Qed.

Lemma NoDup_firstn {A} (l : list A) k : NoDup l -> NoDup (firstn k l).
Proof.
  intros H. rewrite <- (firstn_skipn k l) in H.
  eapply NoDup_app_remove_r. exact H.
Qed.

Lemma indicator_sum (x : nat) (l : list nat) :
  NoDup l ->
  list_sum (map (fun v => if Nat.eqb v x then 1 else 0)%nat l)
  = if existsb (Nat.eqb x) l then 1%nat else 0%nat.
Proof.
  induction 1 as [|v l Hv Hl IH]; simpl; [reflexivity|].
  rewrite IH. rewrite (Nat.eqb_sym x v).
  destruct (Nat.eqb_spec v x) as [->|Hne]; simpl; [|reflexivity].
  destruct (existsb (Nat.eqb x) l) eqn:He; [|reflexivity].
  exfalso. apply Hv. apply existsb_exists in He.
  destruct He as [z [Hz Hxz]]. apply Nat.eqb_eq in Hxz. now subst.
Qed.

Lemma firstn_seq_from k : forall n s, (k <= n)%nat -> firstn k (seq s n) = seq s k.
Proof.
  induction k as [|k IH]; intros n s H; [reflexivity|].
  destruct n as [|n]; [lia|]. simpl. f_equal. apply IH. lia.
Qed.

Lemma firstn_seq0 k n : (k <= n)%nat -> firstn k (seq 0 n) = seq 0 k.
Proof. apply firstn_seq_from. Qed.

Lemma top5_length r : (5 <= length r)%nat -> length (top5 r) = 5%nat.
Proof.
  intros H. unfold top5. rewrite length_firstn, ranking_length. lia.
Qed.

Lemma firstn_top5 k r : (k <= 5)%nat -> firstn k (top5 r) = firstn k (ranking r).
Proof.
  intros H. unfold top5. rewrite firstn_firstn. now rewrite Nat.min_l.
Qed.

(** The column sums of line 73 are the top-k indicators. *)
Lemma correct_k_topk_hits (k : nat) (y : list nat) (t : scores) :
  well_shaped y t = true -> (k <= 5)%nat ->
  correct_k (length t) k (map (hits_of_row y) (transpose 5 (map top5 t)))
  = topk_hits k t y.
Proof.
  intros Hw Hk. unfold correct_k, sum0, transpose, topk_hits.
  rewrite map_map, firstn_map, firstn_seq0 by assumption.
  assert (Hrows :
            map (fun j => hits_of_row y (map (fun r => nth j r 0%nat) (map top5 t)))
                (seq 0 k)
            = map (fun j => map (fun p => if Nat.eqb (nth j (top5 (fst p)) 0%nat) (snd p)
                                           then 1%nat else 0%nat)
                                (combine t y))
                  (seq 0 k)).
  { apply map_ext. intros j. unfold hits_of_row.
    rewrite map_map, combine_map_l, map_map. reflexivity. }
  rewrite Hrows.
  assert (Hlen : length t = length (combine t y)).
  { rewrite length_combine, (well_shaped_length _ _ Hw). lia. }
  rewrite Hlen, repeat_map, fold_add_rows.
  apply map_ext_in. intros [r label] Hin. cbn [fst snd].
  assert (Hr : (5 <= length r)%nat).
  { apply in_combine_l in Hin.
    pose proof (well_shaped_rows _ _ Hw) as Hall.
    rewrite Forall_forall in Hall. auto. }
  unfold topk_hit. rewrite <- firstn_top5 by assumption.
  rewrite <- (nth_seq_firstn (top5 r) k) by (rewrite top5_length; lia).
  rewrite <- indicator_sum.
  - rewrite map_map. reflexivity.
  - rewrite nth_seq_firstn by (rewrite top5_length; lia).
    apply NoDup_firstn, NoDup_firstn, ranking_NoDup.
Qed.


(* ================================================================== *)
(** * What one call of [calculate_acc_adv_acc] caches *)

Lemma meter_cache_list_found m name l old :
  dict_get m name = Some old ->
  meter_cache_list m name l = Ok (dict_set m name (old ++ l)).
Proof. intros H. unfold meter_cache_list, dict_item. now rewrite H. Qed.

Lemma has_meter_found m name :
  has_meter m name = true -> exists old, dict_get m name = Some old.
Proof.
  unfold has_meter. destruct (dict_get m name) as [old|]; [eauto | discriminate].
Qed.

Lemma cache_topk_four (m : meters) (n_adv n : nat) (A B : list (list nat)) :
  has_topk_meters m = true ->
  exists m',
    cache_topk (seq 1 4) n_adv n A B m = Ok m'
    /\ (forall k, (1 <= k <= 4)%nat ->
           cached_since m m' (acc_name k) (map Q_of_nat (correct_k n k B))
           /\ cached_since m m' (adv_acc_name k)
                           (map Q_of_nat (correct_k n_adv k A)))
    /\ (forall name, ~ In name topk_meter_names ->
           dict_get m' name = dict_get m name).
Proof.
  intros H. unfold has_topk_meters in H. rewrite forallb_forall in H.
  assert (Hall : forall name, In name topk_meter_names ->
                              exists old, dict_get m name = Some old)
    by (intros; apply has_meter_found; auto).
  unfold topk_meter_names in *. 
  change (map acc_name (seq 1 4) ++ map adv_acc_name (seq 1 4))
    with ["top1_accuracy"; "top2_accuracy"; "top3_accuracy"; "top4_accuracy";
          "top1_adv_accuracy"; "top2_adv_accuracy"; "top3_adv_accuracy";
          "top4_adv_accuracy"] in *.
  destruct (Hall "top1_accuracy") as [a1 Ha1]; [simpl; tauto|].
  destruct (Hall "top2_accuracy") as [a2 Ha2]; [simpl; tauto|].
  destruct (Hall "top3_accuracy") as [a3 Ha3]; [simpl; tauto|].
  destruct (Hall "top4_accuracy") as [a4 Ha4]; [simpl; tauto|].
  destruct (Hall "top1_adv_accuracy") as [b1 Hb1]; [simpl; tauto|].
  destruct (Hall "top2_adv_accuracy") as [b2 Hb2]; [simpl; tauto|].
  destruct (Hall "top3_adv_accuracy") as [b3 Hb3]; [simpl; tauto|].
  destruct (Hall "top4_adv_accuracy") as [b4 Hb4]; [simpl; tauto|].
  cbn [seq cache_topk].
  change (adv_acc_name 1) with "top1_adv_accuracy".
  change (adv_acc_name 2) with "top2_adv_accuracy".
  change (adv_acc_name 3) with "top3_adv_accuracy".
  change (adv_acc_name 4) with "top4_adv_accuracy".
  change (acc_name 1) with "top1_accuracy".
  change (acc_name 2) with "top2_accuracy".
  change (acc_name 3) with "top3_accuracy".
  change (acc_name 4) with "top4_accuracy".
  repeat (erewrite meter_cache_list_found by (dict_simpl; eassumption);
          cbn [res_bind]).
  eexists. split; [reflexivity|]. split.
  - intros k Hk.
    assert (Hcases : (k = 1 \/ k = 2 \/ k = 3 \/ k = 4)%nat) by lia.
    destruct Hcases as [->|[->|[->| ->]]];
      (split; eexists; (split; [eassumption | dict_simpl; reflexivity])).
  - intros name Hn. simpl in Hn.
    repeat rewrite dict_get_set_other by (intro E; apply Hn; subst; tauto).
    reflexivity.
Qed.

Lemma argmax1_well_shaped y t :
  well_shaped y t = true -> argmax1 t = Ok (map argmax_of t).
Proof.
  intros H. apply map_res_total.
  eapply Forall_impl; [| apply (well_shaped_rows _ _ H)].
  intros r Hr. cbv beta in Hr. destruct r as [|v r]; [simpl in Hr; lia|].
  unfold argmax_row, argmax_of. now rewrite ranking_head.
Qed.

Lemma eq_tensor_same_length a b :
  length a = length b ->
  eq_tensor a b = Ok (map (fun p => Nat.eqb (fst p) (snd p)) (combine a b)).
Proof. intros H. unfold eq_tensor. now rewrite H, Nat.eqb_refl. Qed.






(** What one call caches, for well-shaped predictions. *)
Lemma calculate_acc_adv_acc_caches m y adv_pred pred :
  well_shaped y pred = true -> well_shaped y adv_pred = true ->
  has_topk_meters m = true ->
  exists m',
    calculate_acc_adv_acc m y adv_pred pred
    = Ok (m', (bool_mean (map (fun p => Nat.eqb (fst p) (snd p))
                              (combine (map argmax_of pred) y)),
               bool_mean (map (fun p => Nat.eqb (fst p) (snd p))
                              (combine (map argmax_of adv_pred) y))))
    /\ (forall k, (1 <= k <= 4)%nat ->
           cached_since m m' (acc_name k) (map Q_of_nat (topk_hits k pred y))
           /\ cached_since m m' (adv_acc_name k)
                           (map Q_of_nat (topk_hits k adv_pred y)))
    /\ (forall name, ~ In name topk_meter_names ->
           dict_get m' name = dict_get m name).
Proof.
  intros Hp Ha Hm. unfold calculate_acc_adv_acc.
  rewrite (argmax1_well_shaped _ _ Ha). cbn [res_bind].
  rewrite eq_tensor_same_length
    by (rewrite length_map; symmetry; now apply well_shaped_length).
  cbn [res_bind].
  rewrite (argmax1_well_shaped _ _ Hp). cbn [res_bind].
  rewrite eq_tensor_same_length
    by (rewrite length_map; symmetry; now apply well_shaped_length).
  cbn [res_bind].
  rewrite (topk_well_shaped _ _ Ha), (topk_well_shaped _ _ Hp). cbn [res_bind].
  rewrite (expand_labels_well_shaped _ _ Ha), (expand_labels_well_shaped _ _ Hp).
  cbn [res_bind].
  destruct (cache_topk_four m (length adv_pred) (length pred)
              (map (hits_of_row y) (transpose 5 (map top5 adv_pred)))
              (map (hits_of_row y) (transpose 5 (map top5 pred))) Hm)
    as [m' [Hrun [Hc Ho]]].
  rewrite Hrun. cbn [res_bind]. exists m'. split; [reflexivity|].
  split; [| exact Ho].
  intros k Hk. destruct (Hc k Hk) as [H1 H2].
  rewrite correct_k_topk_hits in H1 by (assumption || lia).
  rewrite correct_k_topk_hits in H2 by (assumption || lia).
  split; assumption.
Qed.




(* ================================================================== *)
(** * The top-k meters over a sweep *)

Lemma cached_since_trans m1 m2 m3 name l1 l2 :
  cached_since m1 m2 name l1 -> cached_since m2 m3 name l2 ->
  cached_since m1 m3 name (l1 ++ l2).
Proof.
  intros [o1 [H1 H2]] [o2 [H3 H4]]. exists o1. split; [exact H1|].
  rewrite H4. rewrite H2 in H3. injection H3 as <-. now rewrite app_assoc.
Qed.

Lemma cached_since_unchanged m m' name :
  has_meter m name = true -> dict_get m' name = dict_get m name ->
  cached_since m m' name [].
Proof.
  intros H E. apply has_meter_found in H. destruct H as [old H].
  exists old. rewrite E, app_nil_r. auto.
Qed.

Lemma cached_since_has m m' name l :
  cached_since m m' name l -> has_meter m' name = true.
Proof. intros [old [_ H]]. unfold has_meter. now rewrite H. Qed.

Lemma topk_names_cases name :
  In name topk_meter_names ->
  exists k, (1 <= k <= 4)%nat /\ (name = acc_name k \/ name = adv_acc_name k).
Proof.
  unfold topk_meter_names. rewrite in_app_iff, !in_map_iff.
  intros [[k [<- Hk]]|[k [<- Hk]]]; apply in_seq in Hk; exists k;
    (split; [lia | tauto]).
Qed.

Lemma topk_names_in k :
  (1 <= k <= 4)%nat ->
  In (acc_name k) topk_meter_names /\ In (adv_acc_name k) topk_meter_names.
Proof.
  intros Hk. unfold topk_meter_names. rewrite !in_app_iff, !in_map_iff.
  split; [left | right]; exists k; (split; [reflexivity | apply in_seq; lia]).
Qed.

Lemma topk_names_not_loss name :
  In name topk_meter_names -> name <> "natural_loss" /\ name <> "robust_loss".
Proof.
  intros H. simpl in H.
  repeat (destruct H as [<-|H]; [split; discriminate|]). contradiction.
Qed.

Lemma has_topk_meters_iff m :
  has_topk_meters m = true
  <-> forall name, In name topk_meter_names -> has_meter m name = true.
Proof. unfold has_topk_meters. apply forallb_forall. Qed.

Lemma meter_cache_other m name v m' n :
  meter_cache m name v = Ok m' -> n <> name ->
  dict_get m' n = dict_get m n.
Proof.
  unfold meter_cache, dict_item. destruct (dict_get m name); [|discriminate].
  simpl. intros [= <-] Hn. apply dict_get_set_other. congruence.
Qed.

Section SweepMeters.

Variable C : collaborators.
Hypothesis Hshaped : shaped_outputs C.

Lemma read_write_meters ref m (s : store C) :
  read_meters C ref (write_meters C ref m s) = m.
Proof. destruct ref; reflexivity. Qed.

(** What the statements after the step call do to the top-k meters. *)
Lemma after_step_meters ref len epoch idx b r tr (s : store C) :
  shaped_result b r ->
  has_topk_meters (read_meters C ref s) = true ->
  match record_batch C ref len epoch idx b r tr s
  with
  | Returned _ _ s' =>
      has_topk_meters (read_meters C ref s') = true
      /\ forall k, (1 <= k <= 4)%nat ->
           cached_since (read_meters C ref s) (read_meters C ref s')
                        (acc_name k)
                        (if (idx mod 10 =? 0)%nat
                         then map Q_of_nat (topk_hits k (pred r) (y b))
                         else [])
           /\ cached_since (read_meters C ref s) (read_meters C ref s')
                           (adv_acc_name k)
                           (if (idx mod 10 =? 0)%nat
                            then map Q_of_nat (topk_hits k (adv_pred r) (y b))
                            else [])
  | Crashed _ _ => True
  end.
Proof.
  intros [Hp Ha] Hm. unfold record_batch, print_progress.
  remember (idx mod 10 =? 0)%nat as due.
  run_monad.
  destruct (meter_cache (read_meters C ref s) "natural_loss" (loss_natural r))
    as [m1|e] eqn:H1; run_monad; [|exact I].
  destruct (meter_cache m1 "robust_loss" (loss_robust r))
    as [m2|e] eqn:H2; run_monad; [|exact I].
  assert (Hsame : forall name, In name topk_meter_names ->
                               dict_get m2 name = dict_get (read_meters C ref s) name).
  { intros name Hn. destruct (topk_names_not_loss _ Hn) as [Hn1 Hn2].
    rewrite (@meter_cache_other _ _ _ _ name H2 Hn2).
    apply (@meter_cache_other _ _ _ _ name H1 Hn1). }
  assert (Hm2 : has_topk_meters m2 = true).
  { apply has_topk_meters_iff. intros name Hn. unfold has_meter.
    rewrite (Hsame _ Hn). rewrite has_topk_meters_iff in Hm. now apply Hm. }
  assert (Hstep : forall name, In name topk_meter_names ->
                               cached_since (read_meters C ref s) m2 name []).
  { intros name Hn. apply cached_since_unchanged; [| now apply Hsame].
    rewrite has_topk_meters_iff in Hm. now apply Hm. }
  destruct due; run_monad.
  - destruct (calculate_acc_adv_acc_caches m2 (y b) (adv_pred r) (pred r)
                Hp Ha Hm2) as [m3 [Hrun [Hc _]]].
    rewrite Hrun. run_monad. rewrite !read_write_meters. split.
    + apply has_topk_meters_iff. intros name Hn.
      destruct (topk_names_cases _ Hn) as [k [Hk [-> | ->]]];
        destruct (Hc k Hk) as [Hc1 Hc2];
        eapply cached_since_has; eauto.
    + intros k Hk. destruct (Hc k Hk) as [Hc1 Hc2].
      destruct (topk_names_in k Hk) as [Hi1 Hi2].
      split.
      * apply (cached_since_trans _ _ _ _ _ _ (Hstep _ Hi1) Hc1).
      * apply (cached_since_trans _ _ _ _ _ _ (Hstep _ Hi2) Hc2).
  - rewrite !read_write_meters. split; [exact Hm2|].
    intros k Hk. destruct (topk_names_in k Hk) as [Hi1 Hi2].
    split; [apply (Hstep _ Hi1) | apply (Hstep _ Hi2)].
Qed.

Lemma call_AT_TRAIN_run idx b tr (s : store C) :
  call_AT_TRAIN C idx b tr s
  = match AT_TRAIN C (grad_enabled C s) (model C s) (optimizer C s) b with
    | Ok r =>
        Returned (snd r) (tr ++ [CallAT_TRAIN idx (grad_enabled C s)])
                 (with_optimizer C (snd (fst r)) (with_model C (fst (fst r)) s))
    | Raise e => Crashed e (tr ++ [CallAT_TRAIN idx (grad_enabled C s)])
    end.
Proof.
  unfold call_AT_TRAIN. run_monad.
  destruct (AT_TRAIN C (grad_enabled C s) (model C s) (optimizer C s) b);
    reflexivity.
Qed.

Lemma call_AT_VAL_run idx b tr (s : store C) :
  call_AT_VAL C idx b tr s
  = match AT_VAL C (grad_enabled C s) (model C s) b with
    | Ok r =>
        Returned (snd r) (tr ++ [CallAT_VAL idx (grad_enabled C s)])
                 (with_model C (fst r) s)
    | Raise e => Crashed e (tr ++ [CallAT_VAL idx (grad_enabled C s)])
    end.
Proof.
  unfold call_AT_VAL. run_monad.
  destruct (AT_VAL C (grad_enabled C s) (model C s) b); reflexivity.
Qed.

Lemma batch_body_meters mode ref len epoch idx b tr (s : store C) :
  has_topk_meters (read_meters C ref s) = true ->
  match batch_body C mode ref len epoch idx b tr s with
  | Returned _ _ s' => batch_caches C mode ref idx b s s'
  | Crashed _ _ => True
  end.
Proof.
  intros Hm. unfold batch_body, batch_caches, produced.
  destruct Hshaped as [Htrain Hval].
  destruct (String.eqb mode "train").
  - unfold do_enable_running_stats. run_monad.
    rewrite call_AT_TRAIN_run.
    set (s0 := with_model C (enable_running_stats C (model C s)) s).
    destruct (AT_TRAIN C (grad_enabled C s0) (model C s0) (optimizer C s0) b)
      as [[[m' o'] r]|e] eqn:Hat; [| exact I].
    cbn [fst snd].
    pose proof (after_step_meters ref len epoch idx b r
                  (tr ++ [EnableRunningStats] ++ [CallAT_TRAIN idx (grad_enabled C s0)])
                  (with_optimizer C o' (with_model C m' s0))
                  (Htrain _ _ _ _ _ _ _ Hat)) as Hafter.
    rewrite app_assoc in Hafter.
    assert (Hread : read_meters C ref (with_optimizer C o' (with_model C m' s0))
                    = read_meters C ref s) by (destruct ref; reflexivity).
    rewrite Hread in Hafter. specialize (Hafter Hm).
    destruct (record_batch C ref len epoch idx b r _ _); [| exact I].
    exists r. split; [eauto 10 | exact Hafter].
  - run_monad. rewrite call_AT_VAL_run.
    destruct (AT_VAL C (grad_enabled C s) (model C s) b)
      as [[m' r]|e] eqn:Hat; [| exact I].
    cbn [fst snd].
    pose proof (after_step_meters ref len epoch idx b r
                  (tr ++ [CallAT_VAL idx (grad_enabled C s)])
                  (with_model C m' s)
                  (Hval _ _ _ _ _ Hat)) as Hafter.
    assert (Hread : read_meters C ref (with_model C m' s)
                    = read_meters C ref s) by (destruct ref; reflexivity).
    rewrite Hread in Hafter. specialize (Hafter Hm).
    destruct (record_batch C ref len epoch idx b r _ _); [| exact I].
    exists r. split; [eauto 10 | exact Hafter].
Qed.

(** The sweep: the top-k meters receive the indicators of the batches
    whose index is a multiple of 10, and of no other batch. *)
Lemma batch_loop_meters mode ref len epoch data :
  forall idx tr (s : store C),
    has_topk_meters (read_meters C ref s) = true ->
    match batch_loop C mode ref len epoch idx data tr s with
    | Returned _ _ s' =>
        exists rs,
          Forall2 (produced C mode) data rs
          /\ has_topk_meters (read_meters C ref s') = true
          /\ forall k, (1 <= k <= 4)%nat ->
               cached_since (read_meters C ref s) (read_meters C ref s')
                            (acc_name k)
                            (map Q_of_nat (sweep_hits k pred idx data rs))
               /\ cached_since (read_meters C ref s) (read_meters C ref s')
                               (adv_acc_name k)
                               (map Q_of_nat (sweep_hits k adv_pred idx data rs))
    | Crashed _ _ => True
    end.
Proof.
  induction data as [|b data IH]; intros idx tr s Hm.
  - simpl. exists []. split; [constructor|]. split; [exact Hm|].
    intros k Hk. destruct (topk_names_in k Hk) as [Hi1 Hi2].
    rewrite has_topk_meters_iff in Hm.
    split; apply cached_since_unchanged; auto.
  - cbn [batch_loop]. unfold bind at 1.
    pose proof (batch_body_meters mode ref len epoch idx b tr s Hm) as Hb.
    destruct (batch_body C mode ref len epoch idx b tr s) as [u tr1 s1|e tr1];
      [| exact I].
    destruct Hb as [r [Hr [Hm1 Hc1]]].
    specialize (IH (S idx) tr1 s1 Hm1).
    destruct (batch_loop C mode ref len epoch (S idx) data tr1 s1)
      as [u2 tr2 s2|e tr2]; [| exact I].
    destruct IH as [rs [Hrs [Hm2 Hc2]]].
    exists (r :: rs). split; [now constructor|]. split; [exact Hm2|].
    intros k Hk. destruct (Hc1 k Hk) as [Ha1 Hb1].
    destruct (Hc2 k Hk) as [Ha2 Hb2].
    cbn [sweep_hits]. rewrite !map_app. split.
    + eapply cached_since_trans; [| exact Ha2].
      destruct (idx mod 10 =? 0)%nat; exact Ha1.
    + eapply cached_since_trans; [| exact Hb2].
      destruct (idx mod 10 =? 0)%nat; exact Hb1.
Qed.

End SweepMeters.

(* ================================================================== *)
(** * The validation sweep *)

Lemma step_calls_app l1 l2 : step_calls (l1 ++ l2) = step_calls l1 ++ step_calls l2.
Proof. apply filter_app. Qed.

Section ValidationSweep.

Variable C : collaborators.

(** The contract of the validation step function: with gradient tracking
    off it changes no parameter of the model. *)
Hypothesis AT_VAL_frame :
  forall m b m' r,
    AT_VAL C false m b = Ok (m', r) -> parameters C m' = parameters C m.

Lemma same_frame_refl s : same_frame C s s.
Proof. repeat split. Qed.

Lemma same_frame_trans s1 s2 s3 :
  same_frame C s1 s2 -> same_frame C s2 s3 -> same_frame C s1 s3.
Proof. unfold same_frame. intuition congruence. Qed.

Lemma same_frame_write_meters ref m s : same_frame C s (write_meters C ref m s).
Proof. destruct ref; repeat split. Qed.

Lemma val_batch_body ref len epoch idx b tr s :
  grad_enabled C s = false ->
  match batch_body C "val" ref len epoch idx b tr s with
  | Returned _ tr' s' =>
      (exists l, tr' = tr ++ l /\ step_calls l = [CallAT_VAL idx false])
      /\ same_frame C s s'
  | Crashed _ tr' =>
      exists l, tr' = tr ++ l /\ step_calls l = [CallAT_VAL idx false]
  end.
Proof.
  intros Hg. unfold batch_body, record_batch, print_progress.
  remember (idx mod 10 =? 0)%nat as due.
  change (String.eqb "val" "train") with false. cbv iota.
  unfold call_AT_VAL. run_monad. rewrite Hg.
  destruct (AT_VAL C false (model C s) b) as [[m' r]|e] eqn:Hat; run_monad.
  2:{ exists [CallAT_VAL idx false]. auto. }
  assert (Hs1 : same_frame C s (with_model C m' s)).
  { repeat split. cbn. eauto. }
  destruct (meter_cache (read_meters C ref (with_model C m' s))
                        "natural_loss" (loss_natural r)) as [m1|e]; run_monad.
  2:{ exists [CallAT_VAL idx false]. auto. }
  destruct (meter_cache m1 "robust_loss" (loss_robust r)) as [m2|e]; run_monad.
  2:{ exists [CallAT_VAL idx false]. auto. }
  assert (Hs2 : same_frame C s (write_meters C ref m2 (with_model C m' s))).
  { eapply same_frame_trans; [exact Hs1 | apply same_frame_write_meters]. }
  destruct due; run_monad.
  - destruct (calculate_acc_adv_acc m2 (y b) (adv_pred r) (pred r)) as [acc|e];
      run_monad.
    + split.
      * eexists. rewrite <- app_assoc. split; [reflexivity | reflexivity].
      * eapply same_frame_trans; [exact Hs2 | apply same_frame_write_meters].
    + exists [CallAT_VAL idx false]. auto.
  - split; [| exact Hs2]. exists [CallAT_VAL idx false]. auto.
Qed.

Lemma val_batch_loop ref len epoch data :
  forall idx tr s,
    grad_enabled C s = false ->
    match batch_loop C "val" ref len epoch idx data tr s with
    | Returned _ tr' s' =>
        (exists l, tr' = tr ++ l
                   /\ step_calls l
                      = map (fun i => CallAT_VAL i false)
                            (seq idx (length data)))
        /\ same_frame C s s'
    | Crashed _ tr' =>
        exists l j, tr' = tr ++ l /\ (j <= length data)%nat
                    /\ step_calls l
                       = map (fun i => CallAT_VAL i false) (seq idx j)
    end.
Proof.
  induction data as [|b data IH]; intros idx tr s Hg.
  - simpl. split; [| apply same_frame_refl].
    exists []. now rewrite app_nil_r.
  - cbn [batch_loop]. unfold bind at 1.
    pose proof (val_batch_body ref len epoch idx b tr s Hg) as Hb.
    destruct (batch_body C "val" ref len epoch idx b tr s) as [u tr1 s1|e tr1].
    + destruct Hb as [[l1 [-> Hl1]] Hf1].
      assert (Hg1 : grad_enabled C s1 = false).
      { destruct Hf1 as (_ & _ & ->). exact Hg. }
      specialize (IH (S idx) (tr ++ l1) s1 Hg1).
      destruct (batch_loop C "val" ref len epoch (S idx) data (tr ++ l1) s1)
        as [u2 tr2 s2|e tr2].
      * destruct IH as [[l2 [-> Hl2]] Hf2]. split.
        -- exists (l1 ++ l2). rewrite app_assoc. split; [reflexivity|].
           rewrite step_calls_app, Hl1, Hl2. reflexivity.
        -- eapply same_frame_trans; eauto.
      * destruct IH as [l2 [j [-> [Hj Hl2]]]].
        exists (l1 ++ l2), (S j). rewrite app_assoc.
        split; [reflexivity|]. split; [simpl; lia|].
        rewrite step_calls_app, Hl1, Hl2. reflexivity.
    + destruct Hb as [l1 [-> Hl1]].
      exists l1, 1%nat. split; [reflexivity|]. split; [simpl; lia|].
      exact Hl1.
Qed.

Lemma log_results_records mode epoch items :
  forall tr s,
    exists l, log_results C mode epoch items tr s = Returned tt (tr ++ l) s
              /\ Forall is_record l.
Proof.
  induction items as [|[k v] items IH]; intros tr s.
  - exists []. simpl. now rewrite app_nil_r.
  - cbn [log_results]. unfold bind at 1.
    destruct (negb (String.eqb k "best_val")).
    + destruct (String.eqb mode "train"); unfold emit;
        match goal with
        | |- context [tr ++ [?ev]] =>
            destruct (IH (tr ++ [ev]) s) as [l [-> Hl]];
            exists (ev :: l); rewrite <- app_assoc; split;
            [reflexivity | constructor; [exact I | exact Hl]]
        end.
    + unfold ret. destruct (IH tr s) as [l [-> Hl]]. exists l. auto.
Qed.

End ValidationSweep.

(** C6. Given that [model.eval()] and a call of [AT_VAL] under disabled
    gradient tracking change no parameter, a validation sweep switches the
    model to evaluation mode and gradient tracking off before the batch
    loop, calls [AT_VAL] once per batch, in order, each time with gradient
    tracking off, calls nothing else (no [AT_TRAIN], no running-statistics
    switch), switches gradient tracking on again only after the loop, then
    only logs records; it leaves the optimizer and the parameters of the
    model as they were. A sweep that stops in the loop has called [AT_VAL]
    for the batches so far, and never switched gradient tracking back on. *)
Theorem validation_sweep_frame
        (C : collaborators) (args : Namespace) (data : list batch)
        (ref : meters_ref) (epoch : Z) (tr : list event) (s : store C) :
  (forall m, parameters C (model_eval C m) = parameters C m) ->
  (forall m b m' r,
      AT_VAL C false m b = Ok (m', r) -> parameters C m' = parameters C m) ->
  match adv_learning C args "val" data ref epoch tr s with
  | Returned _ tr' s' =>
      (exists calls logs,
          tr' = tr ++ [ModelEval; SetGradEnabled false] ++ calls
                   ++ [SetGradEnabled true] ++ logs
          /\ step_calls calls
             = map (fun i => CallAT_VAL i false) (seq 0 (length data))
          /\ Forall is_record logs)
      /\ optimizer C s' = optimizer C s
      /\ parameters C (model C s') = parameters C (model C s)
      /\ grad_enabled C s' = true
  | Crashed _ tr' =>
      exists calls j,
        tr' = tr ++ [ModelEval; SetGradEnabled false] ++ calls
        /\ (j <= length data)%nat
        /\ step_calls calls = map (fun i => CallAT_VAL i false) (seq 0 j)
  end.
Proof.
  intros model_eval_frame AT_VAL_frame.
  unfold adv_learning.
  change (String.eqb "val" "val") with true. cbv iota.
  unfold do_model_eval, set_grad_enabled.
  unfold bind at 1. unfold bind at 1. unfold bind at 1. unfold bind at 1.
  unfold emit at 1, modify at 1, emit at 1, modify at 1.
  set (s0 := with_grad C false (with_model C (model_eval C (model C s)) s)).
  assert (Hs0 : optimizer C s0 = optimizer C s
                /\ parameters C (model C s0) = parameters C (model C s)).
  { split; [reflexivity | apply model_eval_frame]. }
  unfold bind at 1.
  pose proof (val_batch_loop C AT_VAL_frame ref (length data) epoch data 0
                ((tr ++ [ModelEval]) ++ [SetGradEnabled false]) s0 eq_refl)
    as Hloop.
  destruct (batch_loop C "val" ref (length data) epoch 0 data
              ((tr ++ [ModelEval]) ++ [SetGradEnabled false]) s0)
    as [u tr1 s1|e tr1].
  - destruct Hloop as [[calls [-> Hcalls]] (Ho & Hp & Hg)].
    run_monad.
    match goal with
    | |- context [log_results C "val" epoch ?items ?t ?st] =>
        destruct (log_results_records C "val" epoch items t st) as [l [-> Hl]]
    end.
    split; [| split; [| split]].
    + exists calls. eexists. split; [| split; [exact Hcalls |]].
      * repeat rewrite <- app_assoc. cbn [app]. reflexivity.
      * apply Forall_app. split; [exact Hl | repeat constructor].
    + destruct ref; cbn; rewrite Ho; apply Hs0.
    + destruct ref; cbn; rewrite Hp; apply Hs0.
    + destruct ref; reflexivity.
  - destruct Hloop as [calls [j [-> [Hj Hcalls]]]].
    exists calls, j. split; [| split; assumption].
    repeat rewrite <- app_assoc. reflexivity.
Qed.

(** The validation sweep of the toy run over three batches returns, and
    the theorem applies to it. *)
Lemma validation_sweep_witness :
  returned (adv_learning toy default_namespace "val"
                         (repeat toy_batch 3) ValMeters 0 [] toy_store) = true
  /\ match adv_learning toy default_namespace "val"
                        (repeat toy_batch 3) ValMeters 0 [] toy_store with
     | Returned _ tr' s' =>
         (exists calls logs,
             tr' = [] ++ [ModelEval; SetGradEnabled false] ++ calls
                      ++ [SetGradEnabled true] ++ logs
             /\ step_calls calls
                = map (fun i => CallAT_VAL i false)
                      (seq 0 (length (repeat toy_batch 3)))
             /\ Forall is_record logs)
         /\ optimizer toy s' = optimizer toy toy_store
         /\ parameters toy (model toy s') = parameters toy (model toy toy_store)
         /\ grad_enabled toy s' = true
     | Crashed _ tr' =>
         exists calls j,
           tr' = [] ++ [ModelEval; SetGradEnabled false] ++ calls
           /\ (j <= length (repeat toy_batch 3))%nat
           /\ step_calls calls = map (fun i => CallAT_VAL i false) (seq 0 j)
     end.
Proof.
  split.
  - vm_compute. reflexivity.
  - apply (validation_sweep_frame toy default_namespace (repeat toy_batch 3)
                                  ValMeters 0 [] toy_store).
    + intros m. reflexivity.
    + intros m b m' r H. simpl in H. injection H as <- _. reflexivity.
Defined.


(* ================================================================== *)
(** * C4: which batches reach the top-k meters *)

(** The snapshot of a flush holds the mean of what a meter accumulated. *)
Lemma flush_mean (m : meters) (name : string) (vs : list Q) :
  dict_get m name = Some vs -> vs <> [] ->
  dict_get (fst (flush_scalar_meters m)) name = Some (mean vs).
Proof.
  intros Hget Hne. unfold flush_scalar_meters. cbn [fst].
  induction m as [|[n v] m IH]; simpl in *; [discriminate|].
  destruct (String.eqb n name) eqn:Hn.
  - injection Hget as ->. destruct vs as [|q vs]; [contradiction|].
    simpl. now rewrite Hn.
  - destruct (negb (length v =? 0)%nat); simpl; [rewrite Hn|]; now apply IH.
Qed.

Lemma toy_scores_shaped (b : batch) : well_shaped (y b) (toy_scores b) = true.
Proof.
  unfold well_shaped, toy_scores. apply andb_true_iff. split.
  - rewrite length_map, length_seq. apply Nat.eqb_refl.
  - apply forallb_forall. intros r Hin. apply in_map_iff in Hin.
    destruct Hin as [i [<- _]]. unfold six_scores.
    rewrite length_firstn, length_app, repeat_length.
    apply Nat.leb_le. lia.
Qed.

Lemma toy_shaped : shaped_outputs toy.
Proof.
  split.
  - intros g m o b m' o' r Hr. simpl in Hr. injection Hr as _ _ <-.
    split; apply toy_scores_shaped.
  - intros g m b m' r Hr. simpl in Hr. injection Hr as _ <-.
    split; apply toy_scores_shaped.
Qed.

(** C4, as stated, fails: after a validation sweep over two batches of two
    samples, the loss meter holds a value per batch, but [top1_accuracy]
    holds the two indicators of the first batch only; the second batch,
    both of whose samples are top-1 hits, left nothing. *)
Lemma topk_meters_counterexample :
  match batch_loop toy "val" ValMeters 2 0 0 [toy_batch; toy_batch_easy]
                   [] toy_store with
  | Returned _ _ s' =>
      dict_get (val_meters toy s') "natural_loss" = Some [1; 1]%Q
      /\ dict_get (val_meters toy s') "top1_accuracy" = Some [1; 0]%Q
      /\ topk_hits 1 (toy_scores toy_batch_easy) (y toy_batch_easy)
         = [1; 1]%nat
  | Crashed _ _ => False
  end.
Proof. vm_compute. repeat split. Qed.

(** C4, amended. Over a sweep whose step function returns well-shaped
    predictions, each top-k meter, clean and adversarial, for k from 1 to 4,
    receives the per-sample 0/1 top-k hit indicator of every sample of
    every batch whose index is a multiple of 10, in batch order, and
    nothing from the other batches; the flush then reports, for a meter
    that accumulated values, their mean. *)
Theorem topk_meters_accumulate_every_tenth_batch
        (C : collaborators) (mode : string) (ref : meters_ref) (len : nat)
        (epoch : Z) (data : list batch) (tr : list event) (s : store C) :
  shaped_outputs C ->
  has_topk_meters (read_meters C ref s) = true ->
  match batch_loop C mode ref len epoch 0 data tr s with
  | Returned _ _ s' =>
      (exists rs,
          Forall2 (produced C mode) data rs
          /\ forall k, (1 <= k <= 4)%nat ->
               cached_since (read_meters C ref s) (read_meters C ref s')
                            (acc_name k)
                            (map Q_of_nat (sweep_hits k pred 0 data rs))
               /\ cached_since (read_meters C ref s) (read_meters C ref s')
                               (adv_acc_name k)
                               (map Q_of_nat (sweep_hits k adv_pred 0 data rs)))
      /\ (forall name vs,
             dict_get (read_meters C ref s') name = Some vs -> vs <> [] ->
             dict_get (fst (flush_scalar_meters (read_meters C ref s'))) name
             = Some (mean vs))
  | Crashed _ _ => True
  end.
Proof.
  intros Hshaped Hm.
  pose proof (batch_loop_meters C Hshaped mode ref len epoch data 0 tr s Hm) as H.
  destruct (batch_loop C mode ref len epoch 0 data tr s) as [u tr' s'|e tr'];
    [| exact I].
  destruct H as [rs [Hrs [_ Hc]]]. split.
  - exists rs. split; assumption.
  - intros name vs. apply flush_mean.
Qed.

(** A toy validation sweep over eleven batches returns; batches 0 and 10
    reach [top1_accuracy], the nine in between do not. *)
Lemma topk_meters_witness :
  match batch_loop toy "val" ValMeters 11 0 0 (repeat toy_batch 11)
                   [] toy_store with
  | Returned _ _ s' =>
      dict_get (val_meters toy s') "top1_accuracy" = Some [1; 0; 1; 0]%Q
      /\ exists rs,
          Forall2 (produced toy "val") (repeat toy_batch 11) rs
          /\ forall k, (1 <= k <= 4)%nat ->
               cached_since (val_meters toy toy_store) (val_meters toy s')
                            (acc_name k)
                            (map Q_of_nat
                                 (sweep_hits k pred 0 (repeat toy_batch 11) rs))
  | Crashed _ _ => False
  end.
Proof.
  pose proof (topk_meters_accumulate_every_tenth_batch
                toy "val" ValMeters 11 0 (repeat toy_batch 11) [] toy_store
                toy_shaped eq_refl) as H.
  destruct (batch_loop toy "val" ValMeters 11 0 0 (repeat toy_batch 11)
                       [] toy_store) as [u tr' s'|e tr'] eqn:Hrun.
  - split.
    + vm_compute in Hrun. injection Hrun as _ _ Hs. rewrite <- Hs. reflexivity.
    + destruct H as [[rs [Hrs Hc]] _]. exists rs. split; [exact Hrs|].
      intros k Hk. apply (Hc k Hk).
  - vm_compute in Hrun. discriminate Hrun.
Defined.

(* ================================================================== *)
(** * The run title on an undeclared option *)

Lemma dict_get_set_none {V} (d : dict V) k k' v :
  dict_get (dict_set d k v) k' = None -> k <> k' /\ dict_get d k' = None.
Proof.
  intros H. destruct (String.eqb_spec k k') as [->|Hne].
  - rewrite dict_get_set_same in H. discriminate.
  - split; [exact Hne|]. now rewrite dict_get_set_other in H.
Qed.

Lemma defaults_fold_unknown (parser : list action) :
  forall (d : dict value) k,
    existsb (String.eqb k) (map dest parser) = false ->
    dict_get (fold_left (fun d a => dict_set d (dest a) (default a)) parser d) k
    = dict_get d k.
Proof.
  induction parser as [|a parser IH]; intros d k H; simpl in *; [reflexivity|].
  apply orb_false_iff in H. destruct H as [Ha Hp].
  rewrite IH by assumption. apply dict_get_set_other.
  intros E. subst k. now rewrite String.eqb_refl in Ha.
Qed.

Lemma defaults_of_unknown (parser : list action) k :
  existsb (String.eqb k) (map dest parser) = false ->
  dict_get (defaults_of parser) k = None.
Proof. intros H. unfold defaults_of. now rewrite defaults_fold_unknown. Qed.

(** The loop of lines 50-56 over the declared options [pre] appends their
    entries and goes on with the rest. *)
Lemma title_loop_app float_str (defaults : dict value) (pre rest : list (string * value)) :
  forall titles,
    forallb (fun it => match dict_get defaults (fst it) with
                       | Some _ => true | None => false end) pre = true ->
    title_loop float_str defaults (pre ++ rest) titles
    = title_loop float_str defaults rest
        (titles ++ map (fun it => title_entry float_str (fst it) (snd it))
                       (filter (listed defaults) pre)).
Proof.
  induction pre as [|[arg v] pre IH]; intros titles H; simpl in *.
  - now rewrite app_nil_r.
  - apply andb_true_iff in H. destruct H as [Hd H].
    unfold dict_item, listed; simpl.
    destruct (dict_get defaults arg) as [dflt|]; [|discriminate]. simpl.
    destruct (py_ne v dflt); simpl.
    + rewrite IH by assumption. now rewrite <- app_assoc.
    + destruct (is_True v); simpl.
      * rewrite IH by assumption. now rewrite <- app_assoc.
      * now apply IH.
Qed.

Lemma known_options_defaults parser args :
  known_options parser args = true ->
  forallb (fun it => match dict_get (defaults_of parser) (fst it) with
                     | Some _ => true | None => false end) args = true.
Proof.
  unfold known_options, keys. rewrite !forallb_forall. intros H it Hin.
  assert (Hk : existsb (String.eqb (fst it)) (map dest parser) = true)
    by (apply H, in_map, Hin).
  apply defaults_of_known in Hk.
  destruct (dict_get (defaults_of parser) (fst it)); congruence.
Qed.

(** X1. A namespace holding an option no action of the parser declares
    (everything before it being declared) makes [get_argument_title] raise
    [KeyError] on that option at line 52, whatever follows it. *)
Theorem get_argument_title_unknown_option
        (float_str : Q -> string) (parser : list action)
        (pre : Namespace) (name : string) (v : value) (post : Namespace) :
  known_options parser pre = true ->
  existsb (String.eqb name) (map dest parser) = false ->
  get_argument_title float_str parser (pre ++ (name, v) :: post)
  = Raise (KeyError name).
Proof.
  intros Hpre Hname. unfold get_argument_title.
  rewrite title_loop_app by now apply known_options_defaults.
  cbn [title_loop]. unfold dict_item.
  now rewrite (defaults_of_unknown _ _ Hname).
Qed.

(** The default namespace with an extra [seed] option. *)
Lemma get_argument_title_unknown_option_witness :
  get_argument_title (fun _ => "<float>") parser_actions
                     (default_namespace ++ [("seed", VInt 1)])
  = Raise (KeyError "seed").
Proof.
  apply (get_argument_title_unknown_option
           (fun _ => "<float>") parser_actions default_namespace
           "seed" (VInt 1) []); reflexivity.
Defined.

(* ================================================================== *)
(** * [calculate_acc_adv_acc]: errors, values and frame *)

Lemma map_res_fails {A B} (f : A -> res B) (l : list A) :
  existsb (fun a => negb (is_ok (f a))) l = true -> is_ok (map_res f l) = false.
Proof.
  induction l as [|a l IH]; simpl; [discriminate|].
  destruct (f a) as [b|e]; simpl; [| reflexivity].
  intros H. apply IH in H. destruct (map_res f l); [discriminate | reflexivity].
Qed.

Lemma topk_short_row (t : scores) :
  existsb short_row t = true -> is_ok (topk 5 t) = false.
Proof.
  intros H. apply map_res_fails.
  apply existsb_exists in H. destruct H as [r [Hin Hr]].
  apply existsb_exists. exists r. split; [exact Hin|].
  unfold topk_row. unfold short_row in Hr. now rewrite Hr.
Qed.

Lemma is_ok_bind_l {A B} (r : res A) (k : A -> res B) :
  is_ok r = false -> is_ok (res_bind r k) = false.
Proof. destruct r; [discriminate | reflexivity]. Qed.

Lemma is_ok_bind_r {A B} (r : res A) (k : A -> res B) :
  (forall a, is_ok (k a) = false) -> is_ok (res_bind r k) = false.
Proof. intros H. destruct r; simpl; auto. Qed.

(** X2. With a row of fewer than five scores in either prediction,
    [calculate_acc_adv_acc] raises: [topk(5)] of lines 64-65 has no fifth
    entry to select. *)
Theorem calculate_acc_adv_acc_needs_five_classes
        (m : meters) (y : list nat) (adv_pred pred : scores) :
  existsb short_row adv_pred || existsb short_row pred = true ->
  is_ok (calculate_acc_adv_acc m y adv_pred pred) = false.
Proof.
  intros H. unfold calculate_acc_adv_acc.
  do 4 (apply is_ok_bind_r; intros ?).
  apply orb_true_iff in H. destruct H as [H|H].
  - apply is_ok_bind_l. now apply topk_short_row.
  - apply is_ok_bind_r; intros ?. apply is_ok_bind_l. now apply topk_short_row.
Qed.

(** One sample over four classes. *)
Lemma calculate_acc_adv_acc_needs_five_classes_witness :
  is_ok (calculate_acc_adv_acc (get_meters "val") [0%nat]
                               [[1; 0; 0; 0]%Q] [[1; 0; 0; 0]%Q]) = false.
Proof.
  apply calculate_acc_adv_acc_needs_five_classes. reflexivity.
Defined.

Lemma topk_hits_length k t y :
  well_shaped y t = true -> length (topk_hits k t y) = length y.
Proof.
  intros H. unfold topk_hits. rewrite length_map, length_combine.
  rewrite (well_shaped_length _ _ H). lia.
Qed.

Lemma topk_hits_are_hits k t y :
  Forall is_hit (map Q_of_nat (topk_hits k t y)).
Proof.
  unfold topk_hits. rewrite map_map. apply Forall_forall.
  intros q Hin. apply in_map_iff in Hin. destruct Hin as [p [<- _]].
  unfold topk_hit, is_hit.
  destruct (existsb _ _); [right | left]; reflexivity.
Qed.

Lemma Qsum_acc (l : list Q) : forall a, fold_left Qplus l a == a + Qsum l.
Proof.
  unfold Qsum. induction l as [|q l IH]; intros a; simpl.
  - ring.
  - rewrite IH. rewrite (IH (0 + q)). ring.
Qed.

Lemma Qsum_cons q l : Qsum (q :: l) == q + Qsum l.
Proof. unfold Qsum at 1. simpl. rewrite Qsum_acc. ring. Qed.

Lemma Qsum_bools_bounds (l : list bool) :
  0 <= Qsum (map (fun b : bool => if b then 1 else 0) l)
  /\ Qsum (map (fun b : bool => if b then 1 else 0) l) <= Q_of_nat (length l).
Proof.
  induction l as [|b l [IH1 IH2]].
  - split; unfold Qsum, Q_of_nat; simpl; apply Qle_refl.
  - cbn [map length]. rewrite Qsum_cons.
    unfold Q_of_nat in *. rewrite Nat2Z.inj_succ. unfold Z.succ.
    rewrite inject_Z_plus. 
    assert (Hb : 0 <= (if b then 1 else 0) /\ (if b then 1 else 0) <= 1)
      by (destruct b; split; discriminate).
    destruct Hb as [Hb1 Hb2]. split.
    + replace 0 with (0 + 0) by reflexivity. now apply Qplus_le_compat.
    + rewrite (Qplus_comm (inject_Z _)). now apply Qplus_le_compat.
Qed.

(** [t.float().mean()] of a boolean tensor: within [0, 1], or [nan] on the
    empty tensor. *)
Lemma bool_mean_bounds (l : list bool) :
  match bool_mean l with
  | Some a => l <> [] /\ 0 <= a /\ a <= 1
  | None => l = []
  end.
Proof.
  destruct l as [|b l]; [reflexivity|].
  unfold bool_mean. split; [discriminate|].
  set (bs := b :: l).
  destruct (Qsum_bools_bounds bs) as [H0 H1].
  assert (Hpos : 0 < Q_of_nat (length bs)).
  { unfold Q_of_nat, bs. cbn [length]. rewrite Nat2Z.inj_succ.
    unfold Qlt; simpl. lia. }
  rewrite Qred_correct. split.
  - apply Qle_shift_div_l; [exact Hpos|]. now rewrite Qmult_0_l.
  - apply Qle_shift_div_r; [exact Hpos|]. now rewrite Qmult_1_l.
Qed.

(** X3. On predictions fit for the labels, and meters holding the eight
    top-k entries, [calculate_acc_adv_acc] returns; each top-k meter
    receives one value per sample, every one of them 0 or 1; and each of
    the two accuracies returned lies between 0 and 1, or is [nan] (here
    [None]) exactly when the batch is empty. *)
Theorem calculate_acc_adv_acc_values
        (m : meters) (y : list nat) (adv_pred pred : scores) :
  well_shaped y pred = true -> well_shaped y adv_pred = true ->
  has_topk_meters m = true ->
  exists m' acc adv_acc,
    calculate_acc_adv_acc m y adv_pred pred = Ok (m', (acc, adv_acc))
    /\ (forall k, (1 <= k <= 4)%nat ->
           exists l l_adv,
             cached_since m m' (acc_name k) l
             /\ cached_since m m' (adv_acc_name k) l_adv
             /\ length l = length y /\ length l_adv = length y
             /\ Forall is_hit l /\ Forall is_hit l_adv)
    /\ match acc with
       | Some a => y <> [] /\ 0 <= a /\ a <= 1
       | None => y = []
       end
    /\ match adv_acc with
       | Some a => y <> [] /\ 0 <= a /\ a <= 1
       | None => y = []
       end.
Proof.
  intros Hp Ha Hm.
  destruct (calculate_acc_adv_acc_caches m y adv_pred pred Hp Ha Hm)
    as [m' [Hrun [Hc _]]].
  exists m'. do 2 eexists. split; [exact Hrun|]. split; [| split].
  - intros k Hk. destruct (Hc k Hk) as [H1 H2].
    exists (map Q_of_nat (topk_hits k pred y)),
           (map Q_of_nat (topk_hits k adv_pred y)).
    repeat split; try assumption.
    + rewrite length_map. now apply topk_hits_length.
    + rewrite length_map. now apply topk_hits_length.
    + apply topk_hits_are_hits.
    + apply topk_hits_are_hits.
  - match goal with |- match bool_mean ?l with _ => _ end =>
      pose proof (bool_mean_bounds l) as Hb; destruct (bool_mean l) end.
    + destruct Hb as [Hne Hb]. split; [| exact Hb].
      intros ->. apply Hne.
      apply well_shaped_length in Hp. destruct pred; [reflexivity | discriminate].
    + apply map_eq_nil in Hb.
      assert (Hl : length (combine (map argmax_of pred) y) = 0%nat) by now rewrite Hb.
      rewrite length_combine, length_map, <- (well_shaped_length _ _ Hp) in Hl.
      destruct y; [reflexivity | simpl in Hl; lia].
  - match goal with |- match bool_mean ?l with _ => _ end =>
      pose proof (bool_mean_bounds l) as Hb; destruct (bool_mean l) end.
    + destruct Hb as [Hne Hb]. split; [| exact Hb].
      intros ->. apply Hne.
      apply well_shaped_length in Ha. destruct adv_pred; [reflexivity | discriminate].
    + apply map_eq_nil in Hb.
      assert (Hl : length (combine (map argmax_of adv_pred) y) = 0%nat) by now rewrite Hb.
      rewrite length_combine, length_map, <- (well_shaped_length _ _ Ha) in Hl.
      destruct y; [reflexivity | simpl in Hl; lia].
Qed.

Lemma keys_dict_set {V} (d : dict V) k v :
  dict_get d k <> None -> keys (dict_set d k v) = keys d.
Proof.
  unfold keys. induction d as [|[k' v'] d IH]; simpl; [congruence|].
  destruct (String.eqb k' k) eqn:Hk; simpl; [reflexivity|].
  intros H. now rewrite IH.
Qed.

Lemma meter_cache_list_frame m name l m' :
  meter_cache_list m name l = Ok m' ->
  keys m' = keys m
  /\ forall n, n <> name -> dict_get m' n = dict_get m n.
Proof.
  unfold meter_cache_list, dict_item.
  destruct (dict_get m name) as [old|] eqn:Hget; [|discriminate].
  simpl. intros [= <-]. split.
  - apply keys_dict_set. congruence.
  - intros n Hn. apply dict_get_set_other. congruence.
Qed.

(** The loop of lines 71-77 touches the meters it names and no other. *)
Lemma cache_topk_frame ks n_adv n A B :
  forall m m',
    cache_topk ks n_adv n A B m = Ok m' ->
    keys m' = keys m
    /\ forall name,
        (forall k, In k ks -> name <> adv_acc_name k /\ name <> acc_name k) ->
        dict_get m' name = dict_get m name.
Proof.
  induction ks as [|k ks IH]; intros m m' H; simpl in H.
  - injection H as <-. auto.
  - destruct (meter_cache_list m (adv_acc_name k) _) as [m1|e] eqn:H1;
      [|discriminate]. simpl in H.
    destruct (meter_cache_list m1 (acc_name k) _) as [m2|e] eqn:H2;
      [|discriminate]. simpl in H.
    apply meter_cache_list_frame in H1. destruct H1 as [K1 F1].
    apply meter_cache_list_frame in H2. destruct H2 as [K2 F2].
    destruct (IH _ _ H) as [K3 F3]. split; [congruence|].
    intros name Hn. rewrite F3 by (intros k' Hk'; apply Hn; now right).
    destruct (Hn k (or_introl eq_refl)) as [Hn1 Hn2].
    rewrite F2 by assumption. now apply F1.
Qed.

Lemma calculate_acc_adv_acc_cache_topk m m' y adv_pred pred acc :
  calculate_acc_adv_acc m y adv_pred pred = Ok (m', acc) ->
  exists A B,
    cache_topk (seq 1 4) (length adv_pred) (length pred) A B m = Ok m'.
Proof.
  unfold calculate_acc_adv_acc. intros H.
  do 8 match type of H with
       | res_bind ?r _ = _ => destruct r; cbn [res_bind] in H; [|discriminate]
       end.
  cbv zeta in H.
  match type of H with
  | context [cache_topk ?ks ?a ?b ?c ?d ?e] =>
      destruct (cache_topk ks a b c d e) as [m2|e2] eqn:Hc
  end; cbn [res_bind] in H; [|discriminate].
  injection H as <- _. eauto.
Qed.

Lemma outside_topk_names name :
  ~ In name topk_meter_names ->
  forall k, In k (seq 1 4) -> name <> adv_acc_name k /\ name <> acc_name k.
Proof.
  intros Hn k Hk. apply in_seq in Hk.
  destruct (topk_names_in k) as [H1 H2]; [lia|].
  split; intros ->; contradiction.
Qed.

(** X4. A call of [calculate_acc_adv_acc] that returns leaves the meter
    dict with the keys it had, and every meter other than the eight top-k
    ones with the values it held. *)
Theorem calculate_acc_adv_acc_frame
        (m m' : meters) (y : list nat) (adv_pred pred : scores)
        (acc : option Q * option Q) :
  calculate_acc_adv_acc m y adv_pred pred = Ok (m', acc) ->
  keys m' = keys m
  /\ forall name, ~ In name topk_meter_names ->
                  dict_get m' name = dict_get m name.
Proof.
  intros H.
  destruct (calculate_acc_adv_acc_cache_topk _ _ _ _ _ _ H) as [A [B Hc]].
  destruct (cache_topk_frame _ _ _ _ _ _ _ Hc) as [K F]. split; [exact K|].
  intros name Hn. apply F. now apply outside_topk_names.
Qed.

(** The reserved [best_val] entry of the validation meters survives a
    call. *)
Lemma calculate_acc_adv_acc_frame_witness :
  exists m' acc,
    calculate_acc_adv_acc (val_meters toy toy_store) (y toy_batch)
                          (toy_scores toy_batch) (toy_scores toy_batch)
    = Ok (m', acc)
    /\ keys m' = keys (val_meters toy toy_store)
    /\ dict_get m' "best_val" = Some [].
Proof.
  destruct (calculate_acc_adv_acc (val_meters toy toy_store) (y toy_batch)
              (toy_scores toy_batch) (toy_scores toy_batch))
    as [[m' acc]|e] eqn:Hrun; [| vm_compute in Hrun; discriminate Hrun].
  exists m', acc. split; [reflexivity|].
  destruct (calculate_acc_adv_acc_frame _ _ _ _ _ _ Hrun) as [K F].
  split; [exact K|]. rewrite F; [reflexivity|].
  vm_compute. intuition discriminate.
Defined.

Lemma has_meter_dict_set m name v n :
  has_meter m name = true -> has_meter (dict_set m name v) n = has_meter m n.
Proof.
  intros H. unfold has_meter in *. destruct (String.eqb_spec name n) as [->|Hne].
  - rewrite dict_get_set_same. destruct (dict_get m n); [reflexivity | discriminate].
  - now rewrite dict_get_set_other.
Qed.

Lemma meter_cache_list_cases m name l :
  (has_meter m name = false /\ meter_cache_list m name l = Raise (KeyError name))
  \/ (exists m', meter_cache_list m name l = Ok m'
                 /\ forall n, has_meter m' n = has_meter m n).
Proof.
  unfold meter_cache_list, dict_item.
  destruct (dict_get m name) as [old|] eqn:Hget; simpl.
  - right. eexists. split; [reflexivity|]. intros n.
    apply has_meter_dict_set. unfold has_meter. now rewrite Hget.
  - left. unfold has_meter. now rewrite Hget.
Qed.

Lemma meter_cache_list_ok_has m name l m' :
  meter_cache_list m name l = Ok m' -> has_meter m name = true.
Proof.
  unfold meter_cache_list, dict_item, has_meter.
  destruct (dict_get m name); [reflexivity | discriminate].
Qed.

(** The loop of lines 71-77 stops at the first meter that is missing. *)
Lemma cache_topk_missing ks n_adv n A B :
  forall m,
    (exists k, In k ks /\ (has_meter m (adv_acc_name k) = false
                           \/ has_meter m (acc_name k) = false)) ->
    exists name,
      has_meter m name = false
      /\ (exists k, In k ks /\ (name = adv_acc_name k \/ name = acc_name k))
      /\ cache_topk ks n_adv n A B m = Raise (KeyError name).
Proof.
  induction ks as [|k ks IH]; intros m [k0 [Hin Hmiss]]; [contradiction|].
  cbn [cache_topk].
  destruct (meter_cache_list_cases m (adv_acc_name k)
              (map Q_of_nat (correct_k n_adv k A))) as [[Hm E1]|[m1 [E1 H1]]];
    rewrite E1.
  { exists (adv_acc_name k). split; [exact Hm|]. split; [| reflexivity].
    exists k. split; [now left | now left]. }
  cbn [res_bind].
  destruct (meter_cache_list_cases m1 (acc_name k)
              (map Q_of_nat (correct_k n k B))) as [[Hm E2]|[m2 [E2 H2]]];
    rewrite E2.
  { exists (acc_name k). split; [now rewrite <- H1|]. split; [| reflexivity].
    exists k. split; [now left | now right]. }
  cbn [res_bind].
  apply meter_cache_list_ok_has in E1. apply meter_cache_list_ok_has in E2.
  rewrite H1 in E2.
  destruct Hin as [<-|Hin].
  { destruct Hmiss as [Hmiss|Hmiss]; congruence. }
  destruct (IH m2) as [name [Hn [Hk Hr]]].
  { exists k0. split; [exact Hin|]. now rewrite !H2, !H1. }
  exists name. split; [now rewrite <- H1, <- H2|]. split; [| exact Hr].
  destruct Hk as [k1 [Hk1 Hname]]. exists k1. split; [now right | exact Hname].
Qed.

(** X5. On predictions fit for the labels, a meter dict lacking one of the
    eight top-k entries makes [calculate_acc_adv_acc] raise [KeyError] on a
    missing top-k name (lines 76-77). *)
Theorem calculate_acc_adv_acc_missing_meter
        (m : meters) (y : list nat) (adv_pred pred : scores) :
  well_shaped y pred = true -> well_shaped y adv_pred = true ->
  has_topk_meters m = false ->
  exists name,
    In name topk_meter_names /\ has_meter m name = false
    /\ calculate_acc_adv_acc m y adv_pred pred = Raise (KeyError name).
Proof.
  intros Hp Ha Hm.
  assert (Hmiss : exists k, In k (seq 1 4)
                            /\ (has_meter m (adv_acc_name k) = false
                                \/ has_meter m (acc_name k) = false)).
  { unfold has_topk_meters in Hm.
    destruct (forallb (has_meter m) topk_meter_names) eqn:Hall; [discriminate|].
    assert (Hex : existsb (fun n => negb (has_meter m n)) topk_meter_names = true).
    { clear Hm. induction topk_meter_names as [|n l IH]; simpl in *; [discriminate|].
      destruct (has_meter m n); simpl in *; auto. }
    apply existsb_exists in Hex. destruct Hex as [name [Hin Hn]].
    apply negb_true_iff in Hn.
    destruct (topk_names_cases _ Hin) as [k [Hk [-> | ->]]];
      exists k; (split; [apply in_seq; lia | tauto]). }
  unfold calculate_acc_adv_acc.
  rewrite (argmax1_well_shaped _ _ Ha). cbn [res_bind].
  rewrite eq_tensor_same_length
    by (rewrite length_map; symmetry; now apply well_shaped_length).
  cbn [res_bind].
  rewrite (argmax1_well_shaped _ _ Hp). cbn [res_bind].
  rewrite eq_tensor_same_length
    by (rewrite length_map; symmetry; now apply well_shaped_length).
  cbn [res_bind].
  rewrite (topk_well_shaped _ _ Ha), (topk_well_shaped _ _ Hp). cbn [res_bind].
  rewrite (expand_labels_well_shaped _ _ Ha), (expand_labels_well_shaped _ _ Hp).
  cbn [res_bind]. cbv zeta.
  destruct (cache_topk_missing (seq 1 4) (length adv_pred) (length pred)
              (map (hits_of_row y) (transpose 5 (map top5 adv_pred)))
              (map (hits_of_row y) (transpose 5 (map top5 pred))) m Hmiss)
    as [name [Hn [[k [Hk Hname]] Hr]]].
  exists name. rewrite Hr. split; [| split; [exact Hn | reflexivity]].
  apply in_seq in Hk. destruct (topk_names_in k) as [H1 H2]; [lia|].
  destruct Hname as [-> | ->]; assumption.
Qed.

(** A dict holding the two loss meters only. *)
Lemma calculate_acc_adv_acc_missing_meter_witness :
  exists name,
    In name topk_meter_names
    /\ calculate_acc_adv_acc [("natural_loss", []); ("robust_loss", [])]
                             (y toy_batch) (toy_scores toy_batch)
                             (toy_scores toy_batch)
       = Raise (KeyError name).
Proof.
  destruct (calculate_acc_adv_acc_missing_meter
              [("natural_loss", []); ("robust_loss", [])]
              (y toy_batch) (toy_scores toy_batch) (toy_scores toy_batch)
              eq_refl eq_refl eq_refl) as [name [Hin [_ Hr]]].
  exists name. split; assumption.
Defined.

(* ================================================================== *)
(** * The trace of a sweep *)

Lemma progress_indices_app l1 l2 :
  progress_indices (l1 ++ l2) = progress_indices l1 ++ progress_indices l2.
Proof. apply flat_map_app. Qed.

Section SweepRun.

Variable C : collaborators.

Lemma kept_refl (s : store C) : kept C s s.
Proof. split; reflexivity. Qed.

Lemma kept_trans (s1 s2 s3 : store C) :
  kept C s1 s2 -> kept C s2 s3 -> kept C s1 s3.
Proof. unfold kept. intuition congruence. Qed.

Lemma kept_write_meters ref m (s : store C) : kept C s (write_meters C ref m s).
Proof. destruct ref; split; reflexivity. Qed.

Lemma record_batch_run ref len epoch idx b r tr (s : store C) :
  match record_batch C ref len epoch idx b r tr s with
  | Returned _ tr' s' =>
      kept C s s'
      /\ exists prog, tr' = tr ++ prog /\ step_calls prog = []
                      /\ progress_indices prog
                         = (if (idx mod 10 =? 0)%nat then [idx] else [])
  | Crashed _ tr' => tr' = tr
  end.
Proof.
  unfold record_batch, print_progress.
  remember (idx mod 10 =? 0)%nat as due. run_monad.
  destruct (meter_cache (read_meters C ref s) "natural_loss" (loss_natural r))
    as [m1|e]; run_monad; [| reflexivity].
  destruct (meter_cache m1 "robust_loss" (loss_robust r)) as [m2|e];
    run_monad; [| reflexivity].
  destruct due; run_monad.
  - destruct (calculate_acc_adv_acc m2 (y b) (adv_pred r) (pred r)) as [acc|e];
      run_monad; [| reflexivity].
    split.
    + eapply kept_trans; apply kept_write_meters.
    + eexists. split; [reflexivity|]. split; reflexivity.
  - split; [apply kept_write_meters|]. exists []. rewrite app_nil_r. auto.
Qed.

(** One pass of the loop body: its calls, its progress line, and what it
    leaves alone; when it raises, the calls of the batch are all it has
    appended. *)
Lemma batch_body_run mode ref len epoch idx b tr (s : store C) :
  match batch_body C mode ref len epoch idx b tr s with
  | Returned _ tr' s' =>
      kept C s s'
      /\ exists l, tr' = tr ++ l
                   /\ step_calls l = step_events mode (grad_enabled C s) idx
                   /\ progress_indices l
                      = (if (idx mod 10 =? 0)%nat then [idx] else [])
  | Crashed _ tr' => tr' = tr ++ step_events mode (grad_enabled C s) idx
  end.
Proof.
  unfold batch_body, step_events. destruct (String.eqb mode "train").
  - unfold do_enable_running_stats. run_monad. rewrite call_AT_TRAIN_run.
    set (s0 := with_model C (enable_running_stats C (model C s)) s).
    change (grad_enabled C s0) with (grad_enabled C s).
    destruct (AT_TRAIN C (grad_enabled C s) (model C s0) (optimizer C s0) b)
      as [[[m' o'] r]|e]; cbn [fst snd].
    2:{ now rewrite <- app_assoc. }
    pose proof (record_batch_run ref len epoch idx b r
                  ((tr ++ [EnableRunningStats])
                     ++ [CallAT_TRAIN idx (grad_enabled C s)])
                  (with_optimizer C o' (with_model C m' s0))) as Hr.
    destruct (record_batch C ref len epoch idx b r _ _) as [u tr' s'|e tr'].
    + destruct Hr as [Hk [prog [-> [Hc Hp]]]]. split.
      * eapply kept_trans; [| exact Hk]. split; reflexivity.
      * exists ([EnableRunningStats; CallAT_TRAIN idx (grad_enabled C s)] ++ prog).
        split; [now rewrite <- !app_assoc|].
        split; [rewrite step_calls_app, Hc; reflexivity|].
        rewrite progress_indices_app, Hp. reflexivity.
    + subst tr'. now rewrite <- app_assoc.
  - run_monad. rewrite call_AT_VAL_run.
    destruct (AT_VAL C (grad_enabled C s) (model C s) b) as [[m' r]|e];
      cbn [fst snd]; [| reflexivity].
    pose proof (record_batch_run ref len epoch idx b r
                  (tr ++ [CallAT_VAL idx (grad_enabled C s)])
                  (with_model C m' s)) as Hr.
    destruct (record_batch C ref len epoch idx b r _ _) as [u tr' s'|e tr'].
    + destruct Hr as [Hk [prog [-> [Hc Hp]]]]. split.
      * eapply kept_trans; [| exact Hk]. split; reflexivity.
      * exists ([CallAT_VAL idx (grad_enabled C s)] ++ prog).
        split; [now rewrite <- !app_assoc|].
        split; [rewrite step_calls_app, Hc; reflexivity|].
        rewrite progress_indices_app, Hp. reflexivity.
    + exact Hr.
Qed.

Lemma step_events_calls mode g idx :
  step_calls (step_events mode g idx) = step_events mode g idx.
Proof. unfold step_events. destruct (String.eqb mode "train"); reflexivity. Qed.

Lemma batch_loop_run mode ref len epoch data :
  forall idx tr (s : store C),
    match batch_loop C mode ref len epoch idx data tr s with
    | Returned _ tr' s' =>
        kept C s s'
        /\ exists l, tr' = tr ++ l
                     /\ step_calls l
                        = flat_map (step_events mode (grad_enabled C s))
                                   (seq idx (length data))
                     /\ progress_indices l = every_tenth idx (length data)
    | Crashed _ tr' =>
        exists l j, (j < length data)%nat /\ tr' = tr ++ l
                    /\ step_calls l
                       = flat_map (step_events mode (grad_enabled C s))
                                  (seq idx (S j))
    end.
Proof.
  induction data as [|b data IH]; intros idx tr s.
  - simpl. split; [apply kept_refl|]. exists []. now rewrite app_nil_r.
  - cbn [batch_loop]. unfold bind at 1.
    pose proof (batch_body_run mode ref len epoch idx b tr s) as Hb.
    destruct (batch_body C mode ref len epoch idx b tr s) as [u tr1 s1|e tr1].
    + destruct Hb as [Hk1 [l1 [-> [Hc1 Hp1]]]].
      specialize (IH (S idx) (tr ++ l1) s1).
      destruct Hk1 as [Hg1 Hs1].
      destruct (batch_loop C mode ref len epoch (S idx) data (tr ++ l1) s1)
        as [u2 tr2 s2|e tr2].
      * destruct IH as [[Hg2 Hs2] [l2 [-> [Hc2 Hp2]]]]. split.
        -- split; congruence.
        -- exists (l1 ++ l2). rewrite app_assoc. split; [reflexivity|]. split.
           ++ rewrite step_calls_app, Hc1, Hc2, Hg1. reflexivity.
           ++ rewrite progress_indices_app, Hp1, Hp2. unfold every_tenth.
              cbn [length seq filter]. destruct (idx mod 10 =? 0)%nat; reflexivity.
      * destruct IH as [l2 [j [Hj [-> Hc2]]]].
        exists (l1 ++ l2), (S j). split; [simpl; lia|].
        rewrite app_assoc. split; [reflexivity|].
        rewrite step_calls_app, Hc1, Hc2, Hg1. reflexivity.
    + subst tr1. exists (step_events mode (grad_enabled C s) idx), 0%nat.
      split; [simpl; lia|]. split; [reflexivity|].
      rewrite step_events_calls. simpl. now rewrite app_nil_r.
Qed.

Variable args : Namespace.

(** The trace of a sweep, piece by piece. *)
Lemma adv_learning_run mode data ref epoch tr (s : store C) :
  match adv_learning C args mode data ref epoch tr s with
  | Returned _ tr' s' =>
      (exists l logs,
          tr' = tr ++ sweep_prefix mode ++ l ++ sweep_suffix mode ++ logs
                   ++ [AddScalar (mode ++ "/lr")
                                 (FloatList (get_last_lr C args
                                               (scheduler_steps C s))) epoch]
          /\ step_calls l
             = flat_map (step_events mode (sweep_grad mode (grad_enabled C s)))
                        (seq 0 (length data))
          /\ progress_indices l = every_tenth 0 (length data)
          /\ Forall is_record logs)
      /\ scheduler_steps C s' = scheduler_steps C s
      /\ grad_enabled C s'
         = (if String.eqb mode "val" then true else grad_enabled C s)
  | Crashed _ tr' =>
      exists l j,
        (j < length data)%nat
        /\ tr' = tr ++ sweep_prefix mode ++ l
        /\ step_calls l
           = flat_map (step_events mode (sweep_grad mode (grad_enabled C s)))
                      (seq 0 (S j))
  end.
Proof.
  unfold adv_learning, sweep_prefix, sweep_suffix, sweep_grad.
  unfold bind at 1.
  assert (Hpre :
            (if String.eqb mode "val"
             then do_model_eval C;;; set_grad_enabled C false
             else ret tt) tr s
            = Returned tt
                (tr ++ (if String.eqb mode "val"
                        then [ModelEval; SetGradEnabled false] else []))
                (if String.eqb mode "val"
                 then with_grad C false
                        (with_model C (model_eval C (model C s)) s)
                 else s)).
  { destruct (String.eqb mode "val").
    - unfold do_model_eval, set_grad_enabled. run_monad.
      now rewrite <- app_assoc.
    - unfold ret. now rewrite app_nil_r. }
  rewrite Hpre. clear Hpre.
  set (s0 := if String.eqb mode "val"
             then with_grad C false (with_model C (model_eval C (model C s)) s)
             else s).
  set (tr0 := tr ++ (if String.eqb mode "val"
                     then [ModelEval; SetGradEnabled false] else [])).
  assert (Hg0 : grad_enabled C s0
                = (if String.eqb mode "val" then false else grad_enabled C s))
    by (unfold s0; destruct (String.eqb mode "val"); reflexivity).
  assert (Hs0 : scheduler_steps C s0 = scheduler_steps C s)
    by (unfold s0; destruct (String.eqb mode "val"); reflexivity).
  unfold bind at 1.
  pose proof (batch_loop_run mode ref (length data) epoch data 0 tr0 s0) as Hl.
  destruct (batch_loop C mode ref (length data) epoch 0 data tr0 s0)
    as [u tr1 s1|e tr1].
  - destruct Hl as [[Hg1 Hs1] [l [-> [Hc Hp]]]].
    unfold bind at 1.
    assert (Hsuf :
              (if String.eqb mode "val" then set_grad_enabled C true else ret tt)
                (tr0 ++ l) s1
              = Returned tt
                  ((tr0 ++ l) ++ (if String.eqb mode "val"
                                  then [SetGradEnabled true] else []))
                  (if String.eqb mode "val" then with_grad C true s1 else s1)).
    { destruct (String.eqb mode "val").
      - unfold set_grad_enabled. run_monad. reflexivity.
      - unfold ret. now rewrite app_nil_r. }
    rewrite Hsuf. clear Hsuf. run_monad.
    match goal with
    | |- context [log_results C mode epoch ?items ?t ?st] =>
        destruct (log_results_records C mode epoch items t st) as [logs [-> Hlogs]]
    end.
    split; [| split].
    + exists l, logs. split; [| split; [| split; [exact Hp | exact Hlogs]]].
      * unfold tr0. repeat rewrite <- app_assoc. do 5 f_equal.
        destruct ref; destruct (String.eqb mode "val"); cbn;
          rewrite Hs1, Hs0; reflexivity.
      * now rewrite Hc, Hg0.
    + destruct ref; destruct (String.eqb mode "val"); cbn; congruence.
    + destruct ref; destruct (String.eqb mode "val"); cbn; congruence.
  - destruct Hl as [l [j [Hj [-> Hc]]]]. exists l, j.
    split; [exact Hj|]. split.
    + unfold tr0. now rewrite <- app_assoc.
    + now rewrite Hc, Hg0.
Qed.

End SweepRun.

Lemma records_no_calls logs : Forall is_record logs -> step_calls logs = [].
Proof.
  induction 1 as [|ev l Hev _ IH]; [reflexivity|].
  destruct ev; try contradiction. simpl. exact IH.
Qed.

Lemma records_no_progress logs : Forall is_record logs -> progress_indices logs = [].
Proof.
  induction 1 as [|ev l Hev _ IH]; [reflexivity|].
  destruct ev; try contradiction. simpl. exact IH.
Qed.

(** X6. In a mode other than ["val"], the calls of a sweep are exactly,
    batch after batch in loader order: in mode ["train"] the re-enabling
    of the running statistics followed by [AT_TRAIN], in any other mode
    [AT_VAL] alone; each runs under the gradient setting the sweep found,
    which the sweep leaves as it was. A sweep that raises has made these
    calls for the batches up to and including the one that raised, and
    for no later batch. *)
Theorem sweep_calls_outside_val
        (C : collaborators) (args : Namespace) (mode : string)
        (data : list batch) (ref : meters_ref) (epoch : Z)
        (tr : list event) (s : store C) :
  String.eqb mode "val" = false ->
  match adv_learning C args mode data ref epoch tr s with
  | Returned _ tr' s' =>
      (exists l,
          tr' = tr ++ l
          /\ step_calls l
             = flat_map (step_events mode (grad_enabled C s))
                        (seq 0 (length data)))
      /\ grad_enabled C s' = grad_enabled C s
  | Crashed _ tr' =>
      exists l j,
        (j < length data)%nat /\ tr' = tr ++ l
        /\ step_calls l
           = flat_map (step_events mode (grad_enabled C s)) (seq 0 (S j))
  end.
Proof.
  intros Hmode.
  pose proof (adv_learning_run C args mode data ref epoch tr s) as H.
  unfold sweep_prefix, sweep_suffix, sweep_grad in H. rewrite Hmode in H.
  destruct (adv_learning C args mode data ref epoch tr s) as [a tr' s'|e tr'].
  - destruct H as [[l [logs [-> [Hc [_ Hlogs]]]]] [_ Hg]]. split; [| exact Hg].
    eexists. split; [reflexivity|]. cbn [app].
    rewrite !step_calls_app, Hc, (records_no_calls _ Hlogs). cbn.
    now rewrite app_nil_r.
  - destruct H as [l [j [Hj [-> Hc]]]]. exists l, j. auto.
Qed.

(** X7. A sweep that returns has printed one progress line for each batch
    whose index is a multiple of 10, in order, and none for any other
    batch. *)
Theorem sweep_prints_every_tenth_batch
        (C : collaborators) (args : Namespace) (mode : string)
        (data : list batch) (ref : meters_ref) (epoch : Z)
        (tr : list event) (s : store C) :
  match adv_learning C args mode data ref epoch tr s with
  | Returned _ tr' _ =>
      exists l, tr' = tr ++ l
                /\ progress_indices l = every_tenth 0 (length data)
  | Crashed _ _ => True
  end.
Proof.
  pose proof (adv_learning_run C args mode data ref epoch tr s) as H.
  destruct (adv_learning C args mode data ref epoch tr s) as [a tr' s'|e tr'];
    [| exact I].
  destruct H as [[l [logs [-> [_ [Hp Hlogs]]]]] _].
  eexists. split; [reflexivity|].
  rewrite !progress_indices_app, Hp, (records_no_progress _ Hlogs).
  unfold sweep_prefix, sweep_suffix.
  destruct (String.eqb mode "val"); cbn; now rewrite app_nil_r.
Qed.

(** X8. The last thing a sweep that returns does is to record, under
    [<mode>/lr] and the epoch, the learning rate the scheduler reports at
    the step count the sweep started with; the sweep does not step the
    scheduler. *)
Theorem sweep_ends_with_lr_record
        (C : collaborators) (args : Namespace) (mode : string)
        (data : list batch) (ref : meters_ref) (epoch : Z)
        (tr : list event) (s : store C) :
  match adv_learning C args mode data ref epoch tr s with
  | Returned _ tr' s' =>
      (exists l,
          tr' = tr ++ l
                   ++ [AddScalar (mode ++ "/lr")
                                 (FloatList (get_last_lr C args
                                               (scheduler_steps C s))) epoch])
      /\ scheduler_steps C s' = scheduler_steps C s
  | Crashed _ _ => True
  end.
Proof.
  pose proof (adv_learning_run C args mode data ref epoch tr s) as H.
  destruct (adv_learning C args mode data ref epoch tr s) as [a tr' s'|e tr'];
    [| exact I].
  destruct H as [[l [logs [-> _]]] [Hs _]]. split; [| exact Hs].
  exists (sweep_prefix mode ++ l ++ sweep_suffix mode ++ logs).
  repeat rewrite <- app_assoc. reflexivity.
Qed.

(** Two batches, in mode ["train"] and in a mode that is neither ["train"]
    nor ["val"]. *)
Lemma sweep_calls_outside_val_witness :
  match adv_learning toy default_namespace "train" (repeat toy_batch 2)
                     TrainMeters 0 [] toy_store with
  | Returned _ tr' _ =>
      step_calls tr'
      = [EnableRunningStats; CallAT_TRAIN 0 true;
         EnableRunningStats; CallAT_TRAIN 1 true]
  | Crashed _ _ => False
  end
  /\ match adv_learning toy default_namespace "test" (repeat toy_batch 2)
                        ValMeters 0 [] toy_store with
     | Returned _ tr' _ => step_calls tr' = [CallAT_VAL 0 true; CallAT_VAL 1 true]
     | Crashed _ _ => False
     end.
Proof.
  split.
  - pose proof (sweep_calls_outside_val toy default_namespace "train"
                  (repeat toy_batch 2) TrainMeters 0 [] toy_store eq_refl) as H.
    destruct (adv_learning toy default_namespace "train" (repeat toy_batch 2)
                           TrainMeters 0 [] toy_store) as [a tr' s'|e tr'] eqn:Hrun.
    + destruct H as [[l [-> Hc]] _]. exact Hc.
    + vm_compute in Hrun. discriminate Hrun.
  - pose proof (sweep_calls_outside_val toy default_namespace "test"
                  (repeat toy_batch 2) ValMeters 0 [] toy_store eq_refl) as H.
    destruct (adv_learning toy default_namespace "test" (repeat toy_batch 2)
                           ValMeters 0 [] toy_store) as [a tr' s'|e tr'] eqn:Hrun.
    + destruct H as [[l [-> Hc]] _]. exact Hc.
    + vm_compute in Hrun. discriminate Hrun.
Defined.

(* ================================================================== *)
(** * The loss meters over a sweep *)

Lemma meter_cache_found m name v old :
  dict_get m name = Some old ->
  meter_cache m name v = Ok (dict_set m name (old ++ [v])).
Proof. intros H. unfold meter_cache, dict_item. now rewrite H. Qed.

Lemma meter_cache_ok m name v m' :
  meter_cache m name v = Ok m' ->
  cached_since m m' name [v]
  /\ forall n, n <> name -> dict_get m' n = dict_get m n.
Proof.
  unfold meter_cache, dict_item.
  destruct (dict_get m name) as [old|] eqn:Hget; [|discriminate].
  simpl. intros [= <-]. split.
  - exists old. split; [exact Hget | apply dict_get_set_same].
  - intros n Hn. apply dict_get_set_other. congruence.
Qed.

Lemma cached_since_frame m m' m'' name l :
  cached_since m m' name l -> dict_get m'' name = dict_get m' name ->
  cached_since m m'' name l.
Proof. intros [old [H1 H2]] E. exists old. split; [exact H1 | congruence]. Qed.

Lemma loss_names_not_topk :
  ~ In "natural_loss" topk_meter_names /\ ~ In "robust_loss" topk_meter_names.
Proof. split; vm_compute; intuition discriminate. Qed.

Section Losses.

Variable C : collaborators.

Lemma record_batch_losses ref len epoch idx b r tr (s : store C) :
  match record_batch C ref len epoch idx b r tr s with
  | Returned _ _ s' =>
      losses_cached (read_meters C ref s) (read_meters C ref s')
                    [loss_natural r] [loss_robust r]
  | Crashed _ _ => True
  end.
Proof.
  unfold record_batch, print_progress.
  remember (idx mod 10 =? 0)%nat as due. run_monad.
  destruct (meter_cache (read_meters C ref s) "natural_loss" (loss_natural r))
    as [m1|e] eqn:H1; run_monad; [| exact I].
  destruct (meter_cache m1 "robust_loss" (loss_robust r)) as [m2|e] eqn:H2;
    run_monad; [| exact I].
  apply meter_cache_ok in H1. destruct H1 as [Hn1 F1].
  apply meter_cache_ok in H2. destruct H2 as [Hr2 F2].
  assert (Hm2 : losses_cached (read_meters C ref s) m2
                              [loss_natural r] [loss_robust r]).
  { split.
    - eapply cached_since_frame; [exact Hn1 | apply F2; discriminate].
    - destruct Hr2 as [old [Hg1 Hg2]]. exists old. split; [| exact Hg2].
      rewrite <- Hg1. symmetry. apply F1. discriminate. }
  destruct loss_names_not_topk as [Nn Nr].
  destruct due; run_monad.
  - destruct (calculate_acc_adv_acc m2 (y b) (adv_pred r) (pred r))
      as [[m3 acc]|e] eqn:Hc; run_monad; [| exact I].
    rewrite !read_write_meters. cbn [fst].
    destruct (calculate_acc_adv_acc_cache_topk _ _ _ _ _ _ Hc) as [A0 [B0 Hk]].
    destruct (cache_topk_frame _ _ _ _ _ _ _ Hk) as [_ F3'].
    assert (F3 : forall name, ~ In name topk_meter_names ->
                              dict_get m3 name = dict_get m2 name)
      by (intros name Hname; apply F3'; now apply outside_topk_names).
    destruct Hm2 as [A B]. split; eapply cached_since_frame; eauto.
  - rewrite !read_write_meters. exact Hm2.
Qed.

Lemma batch_body_losses mode ref len epoch idx b tr (s : store C) :
  match batch_body C mode ref len epoch idx b tr s with
  | Returned _ _ s' =>
      exists r, produced C mode b r
                /\ losses_cached (read_meters C ref s) (read_meters C ref s')
                                 [loss_natural r] [loss_robust r]
  | Crashed _ _ => True
  end.
Proof.
  unfold batch_body, produced. destruct (String.eqb mode "train").
  - unfold do_enable_running_stats. run_monad. rewrite call_AT_TRAIN_run.
    set (s0 := with_model C (enable_running_stats C (model C s)) s).
    destruct (AT_TRAIN C (grad_enabled C s0) (model C s0) (optimizer C s0) b)
      as [[[m' o'] r]|e] eqn:Hat; [| exact I]. cbn [fst snd].
    pose proof (record_batch_losses ref len epoch idx b r
                  ((tr ++ [EnableRunningStats])
                     ++ [CallAT_TRAIN idx (grad_enabled C s0)])
                  (with_optimizer C o' (with_model C m' s0))) as Hr.
    assert (Hread : read_meters C ref (with_optimizer C o' (with_model C m' s0))
                    = read_meters C ref s) by (destruct ref; reflexivity).
    rewrite Hread in Hr.
    destruct (record_batch C ref len epoch idx b r _ _); [| exact I].
    exists r. split; [eauto 10 | exact Hr].
  - run_monad. rewrite call_AT_VAL_run.
    destruct (AT_VAL C (grad_enabled C s) (model C s) b) as [[m' r]|e] eqn:Hat;
      [| exact I]. cbn [fst snd].
    pose proof (record_batch_losses ref len epoch idx b r
                  (tr ++ [CallAT_VAL idx (grad_enabled C s)])
                  (with_model C m' s)) as Hr.
    assert (Hread : read_meters C ref (with_model C m' s) = read_meters C ref s)
      by (destruct ref; reflexivity).
    rewrite Hread in Hr.
    destruct (record_batch C ref len epoch idx b r _ _); [| exact I].
    exists r. split; [eauto 10 | exact Hr].
Qed.

End Losses.

(** X9. Given the two loss meters, the batch loop of a sweep (lines
    109-125), when it completes, has appended to [natural_loss] and to
    [robust_loss] exactly one value per batch, in batch order: the losses
    the step function returned for that batch. *)
Theorem loss_meters_accumulate_every_batch
        (C : collaborators) (mode : string) (ref : meters_ref) (len : nat)
        (epoch : Z) (data : list batch) :
  forall (idx : nat) (tr : list event) (s : store C),
    has_meter (read_meters C ref s) "natural_loss" = true ->
    has_meter (read_meters C ref s) "robust_loss" = true ->
    match batch_loop C mode ref len epoch idx data tr s with
    | Returned _ _ s' =>
        exists rs,
          Forall2 (produced C mode) data rs
          /\ cached_since (read_meters C ref s) (read_meters C ref s')
                          "natural_loss" (map loss_natural rs)
          /\ cached_since (read_meters C ref s) (read_meters C ref s')
                          "robust_loss" (map loss_robust rs)
    | Crashed _ _ => True
    end.
Proof.
  induction data as [|b data IH]; intros idx tr s Hn Hr.
  - simpl. exists []. split; [constructor|].
    split; apply cached_since_unchanged; auto.
  - cbn [batch_loop]. unfold bind at 1.
    pose proof (batch_body_losses C mode ref len epoch idx b tr s) as Hb.
    destruct (batch_body C mode ref len epoch idx b tr s) as [u tr1 s1|e tr1];
      [| exact I].
    destruct Hb as [r [Hprod [Hcn Hcr]]].
    specialize (IH (S idx) tr1 s1 (cached_since_has _ _ _ _ Hcn)
                   (cached_since_has _ _ _ _ Hcr)).
    destruct (batch_loop C mode ref len epoch (S idx) data tr1 s1)
      as [u2 tr2 s2|e tr2]; [| exact I].
    destruct IH as [rs [Hrs [Hn2 Hr2]]].
    exists (r :: rs). split; [now constructor|]. cbn [map]. split.
    + apply (cached_since_trans _ _ _ _ _ _ Hcn Hn2).
    + apply (cached_since_trans _ _ _ _ _ _ Hcr Hr2).
Qed.

(* ================================================================== *)
(** * The epoch: order of the sweeps, the decisions, the run *)

Lemma flat_map_seq_prefix (f : nat -> list event) j n :
  (j <= n)%nat ->
  flat_map f (seq 0 n) = flat_map f (seq 0 j) ++ flat_map f (seq j (n - j)).
Proof.
  intros H. replace n with (j + (n - j))%nat at 1 by lia.
  rewrite seq_app, flat_map_app. reflexivity.
Qed.

Lemma range_nil n : range n = [] <-> (n <= 0)%Z.
Proof.
  unfold range. split.
  - intros H. apply map_eq_nil in H.
    destruct (Z.to_nat n) eqn:Hn; [lia | discriminate].
  - intros H. replace (Z.to_nat n) with 0%nat by lia. reflexivity.
Qed.

(** X10. The two sweeps of an epoch (lines 183-188) make their calls in
    this order: the training steps batch by batch, one scheduler step, the
    switch to evaluation mode and gradient tracking off, the validation
    steps batch by batch, gradient tracking on. When both sweeps return the
    scheduler has stepped once, gradient tracking is on, [train/lr] was
    recorded with the rate before the step and [val/lr], last, with the
    rate after it. When a sweep raises, the calls made are a prefix of
    that sequence. *)
Theorem epoch_sweeps_order
        (C : collaborators) (args : Namespace) (E : environment)
        (epoch : Z) (best_val : Q) (tr : list event) (s : store C) :
  match epoch_sweeps C args E epoch best_val tr s with
  | Returned _ tr' s' =>
      (exists l,
          tr' = tr ++ l
                   ++ [AddScalar "val/lr"
                                 (FloatList (get_last_lr C args
                                               (S (scheduler_steps C s)))) epoch]
          /\ step_calls l
             = epoch_calls (grad_enabled C s) (length (dataset_train E))
                           (length (dataset_test E))
          /\ In (AddScalar "train/lr"
                           (FloatList (get_last_lr C args (scheduler_steps C s)))
                           epoch) l)
      /\ scheduler_steps C s' = S (scheduler_steps C s)
      /\ grad_enabled C s' = true
  | Crashed _ tr' =>
      exists l, tr' = tr ++ l
                /\ is_prefix (step_calls l)
                             (epoch_calls (grad_enabled C s)
                                          (length (dataset_train E))
                                          (length (dataset_test E)))
  end.
Proof.
  unfold epoch_sweeps, epoch_calls. run_monad.
  destruct (meter_cache (val_meters C s) "best_val" best_val) as [vm|e];
    run_monad.
  2:{ exists []. rewrite app_nil_r. split; [reflexivity|]. eexists. reflexivity. }
  set (s0 := write_meters C ValMeters vm s).
  pose proof (adv_learning_run C args "train" (dataset_train E) TrainMeters
                epoch tr s0) as Ht.
  unfold sweep_prefix, sweep_suffix, sweep_grad in Ht.
  change (String.eqb "train" "val") with false in Ht. cbv iota in Ht.
  change (grad_enabled C s0) with (grad_enabled C s) in Ht.
  change (scheduler_steps C s0) with (scheduler_steps C s) in Ht.
  destruct (adv_learning C args "train" (dataset_train E) TrainMeters epoch tr s0)
    as [a1 tr1 s1|e tr1].
  2:{ destruct Ht as [l [j [Hj [-> Hc]]]]. exists l. split; [reflexivity|].
      cbn [app] in *. rewrite Hc.
      rewrite (flat_map_seq_prefix _ (S j) (length (dataset_train E))) by lia.
      rewrite <- app_assoc. eexists. reflexivity. }
  destruct Ht as [[l1 [logs1 [-> [Hc1 [_ Hlogs1]]]]] [Hs1 Hg1]].
  cbn [app] in *. unfold scheduler_step. run_monad.
  set (s2 := with_scheduler_steps C (S (scheduler_steps C s1)) s1).
  match goal with
  | |- context [adv_learning C args "val" ?d ?r ?e ?t s2] =>
      pose proof (adv_learning_run C args "val" d r e t s2) as Hv;
      destruct (adv_learning C args "val" d r e t s2) as [a2 tr2 s3|e2 tr2]
  end.
  - unfold sweep_prefix, sweep_suffix, sweep_grad in Hv.
    change (String.eqb "val" "val") with true in Hv. cbv iota in Hv.
    destruct Hv as [[l3 [logs3 [-> [Hc3 [_ Hlogs3]]]]] [Hs3 Hg3]].
    change (scheduler_steps C s2) with (S (scheduler_steps C s1)) in *.
    rewrite Hs1 in *. split; [| split; [exact Hs3 | exact Hg3]].
    exists ((l1 ++ logs1
               ++ [AddScalar "train/lr"
                             (FloatList (get_last_lr C args (scheduler_steps C s)))
                             epoch])
              ++ [SchedulerStep]
              ++ [ModelEval; SetGradEnabled false] ++ l3
              ++ [SetGradEnabled true] ++ logs3).
    split; [| split].
    + repeat rewrite <- app_assoc. reflexivity.
    + rewrite !step_calls_app, Hc1, Hc3,
        (records_no_calls _ Hlogs1), (records_no_calls _ Hlogs3).
      cbn. rewrite !app_nil_r. repeat rewrite <- app_assoc. reflexivity.
    + apply in_or_app. left. apply in_or_app. right.
      apply in_or_app. right. now left.
  - unfold sweep_prefix, sweep_suffix, sweep_grad in Hv.
    change (String.eqb "val" "val") with true in Hv. cbv iota in Hv.
    destruct Hv as [l3 [j [Hj [-> Hc3]]]].
    exists ((l1 ++ logs1
               ++ [AddScalar "train/lr"
                             (FloatList (get_last_lr C args (scheduler_steps C s)))
                             epoch])
              ++ [SchedulerStep] ++ [ModelEval; SetGradEnabled false] ++ l3).
    split.
    + repeat rewrite <- app_assoc. reflexivity.
    + rewrite !step_calls_app, Hc1, Hc3, (records_no_calls _ Hlogs1).
      cbn. rewrite !app_nil_r.
      rewrite (flat_map_seq_prefix (step_events "val" false) (S j)
                 (length (dataset_test E))) by lia.
      eexists. repeat rewrite <- app_assoc. cbn [app]. reflexivity.
Qed.

(** X11. [main] returns exactly when the setup of lines 139-179 completes
    and [args.epochs] counts as an integer that is zero or negative; it
    has then done what the setup did and nothing more. With any epoch to
    run, [main] raises. *)
Theorem main_returns_only_without_epochs
        (C : collaborators) (E : environment) (args : Namespace) :
  (returned (main C E args) = true
   <-> returned (setup C E args [] tt) = true
       /\ exists v n, getattr args "epochs" = Ok v /\ as_int v = Ok n
                      /\ (n <= 0)%Z)
  /\ (returned (main C E args) = true ->
      trace_of (main C E args) = trace_of (setup C E args [] tt)).
Proof.
  unfold main.
  destruct (setup C E args [] tt) as [s0 tr u|e tr]; cbn [returned trace_of].
  2:{ split; [split; [discriminate | intros [H _]; discriminate] | discriminate]. }
  run_monad.
  destruct (getattr args "epochs") as [v|e]; run_monad.
  2:{ split; [split; [discriminate|] | discriminate].
      intros [_ [v [n [H _]]]]. discriminate. }
  destruct (as_int v) as [n|e] eqn:Hv; run_monad.
  2:{ split; [split; [discriminate|] | discriminate].
      intros [_ [v' [n [H1 [H2 _]]]]]. injection H1 as <-. congruence. }
  destruct (range n) as [|z rest] eqn:Hr.
  - cbn [epoch_loop]. run_monad. cbn [returned trace_of].
    split; [| reflexivity]. split; [| reflexivity].
    intros _. split; [reflexivity|]. exists v, n.
    split; [reflexivity|]. split; [exact Hv|]. now apply range_nil.
  - pose proof (emits_never_returns _ _ tr s0
                  (epoch_loop_footprint C args E z rest 0)) as Hn.
    destruct (epoch_loop C args E (z :: rest) 0 tr s0) as [a tr' s'|e tr'];
      [discriminate|]. cbn [returned].
    split; [split; [discriminate|] | discriminate].
    intros [_ [v' [n' [H1 [H2 Hle]]]]].
    injection H1 as <-. rewrite Hv in H2. injection H2 as <-.
    apply range_nil in Hle. congruence.
Qed.

Lemma Qltb_true a b : Qltb a b = true -> a <= b /\ ~ a == b.
Proof.
  unfold Qltb. intros H. apply negb_true_iff in H.
  assert (Hn : ~ b <= a).
  { intros Hle. apply Qle_bool_iff in Hle. congruence. }
  apply Qnot_le_lt in Hn. split; [now apply Qlt_le_weak|].
  intros E. rewrite E in Hn. now apply Qlt_irrefl in Hn.
Qed.

Lemma Qltb_false a b : Qltb a b = false -> b <= a.
Proof.
  unfold Qltb. intros H. apply negb_false_iff in H. now apply Qle_bool_iff.
Qed.

(** X12. Lines 190-198, handed a dict: without a [top1_accuracy] entry
    they raise [KeyError] before anything is written; with one, the tracker
    moves only on a strict improvement, [best.pth] is written exactly then,
    the tracker recorded under [val/best_val] is the larger of the old
    tracker and the accuracy, and the interval checkpoint follows the
    record. *)
Theorem epoch_decisions_on_dict
        (C : collaborators) (d : dict Q) (epoch : Z) (best_val : Q)
        (tr : list event) (s : store C) :
  match dict_get d "top1_accuracy" with
  | Some a =>
      exists best',
        epoch_decisions C (PyDict d) epoch best_val tr s
        = Returned best'
            (tr ++ (if Qltb best_val a
                    then [Save (path_join [checkpoint_dir; "best.pth"])]
                    else [])
                ++ AddScalar "val/best_val" (Float best') epoch
                :: (if interval_checkpoint_due epoch
                    then [Save (path_join
                                  [checkpoint_dir;
                                   ("epoch_" ++ str_of_Z epoch ++ ".pth")%string])]
                    else []))
            s
        /\ best' = (if Qltb best_val a then a else best_val)
        /\ best_val <= best' /\ a <= best'
  | None =>
      epoch_decisions C (PyDict d) epoch best_val tr s
      = Crashed (KeyError "top1_accuracy") tr
  end.
Proof.
  unfold epoch_decisions, best_checkpoint, interval_checkpoint, save_checkpoint,
    subscript, dict_item.
  destruct (dict_get d "top1_accuracy") as [a|]; run_monad; [| reflexivity].
  destruct (Qltb best_val a) eqn:Hlt; run_monad.
  - exists a. split; [| split; [reflexivity | split]].
    + destruct (interval_checkpoint_due epoch); run_monad;
        repeat rewrite <- app_assoc; reflexivity.
    + now apply Qltb_true.
    + apply Qle_refl.
  - exists best_val. split; [| split; [reflexivity | split]].
    + destruct (interval_checkpoint_due epoch); run_monad;
        repeat rewrite <- app_assoc; reflexivity.
    + apply Qle_refl.
    + now apply Qltb_false.
Qed.

(* ================================================================== *)
(** * The setup of [main], and the records of a sweep *)

(** X13. A setup that completes ran on a machine with CUDA, read each of
    the options it names from the namespace, and did, in this order:
    seeding with 42, the summary writer under
    [../test/runs/<title>-<start time>], the dataset, the network, its move
    to [cuda:<gpus>], the optimizer ([SGD] when [args.sgd] is true, [SAM]
    otherwise) and the line announcing it, the scheduler. The store it
    hands to the epoch loop holds that network and optimizer, gradient
    tracking on, a scheduler that has not stepped, and fresh meters, the
    validation ones with the [best_val] entry. *)
Theorem setup_builds_the_run
        (C : collaborators) (E : environment) (args : Namespace)
        (s0 : store C) (tr : list event) :
  setup C E args [] tt = Returned s0 tr tt ->
  cuda_is_available E = true
  /\ exists title gpus batch_size threads depth width_factor dropout sgd epochs,
      get_argument_title (float_str C) (fst (get_arguments args)) args = Ok title
      /\ getattr args "gpus" = Ok gpus
      /\ getattr args "batch_size" = Ok batch_size
      /\ getattr args "threads" = Ok threads
      /\ getattr args "depth" = Ok depth
      /\ getattr args "width_factor" = Ok width_factor
      /\ getattr args "dropout" = Ok dropout
      /\ getattr args "sgd" = Ok sgd
      /\ getattr args "epochs" = Ok epochs
      /\ tr = [ Initialize 42;
                NewSummaryWriter
                  (path_join [dir_prefix; "runs";
                              (title ++ "-" ++ start_time_str E)%string]);
                NewCifar batch_size threads;
                NewWideResNet depth width_factor dropout;
                ModelTo ("cuda:" ++ py_str (float_str C) gpus)%string;
                NewOptimizer (optimizer_name sgd);
                Print ("using " ++ optimizer_name sgd)%string;
                NewScheduler epochs ]
      /\ WideResNet C depth width_factor dropout = Ok (model C s0)
      /\ (if truthy sgd then optim_SGD C (model C s0) args
          else SAM C (model C s0) args) = Ok (optimizer C s0)
      /\ grad_enabled C s0 = true
      /\ scheduler_steps C s0 = 0%nat
      /\ train_meters C s0 = get_meters "train"
      /\ val_meters C s0 = dict_set (get_meters "val") "best_val" [].
Proof.
  unfold setup, select_device, read_device, make_optimizer, optimizer_name.
  set (parser := fst (get_arguments args)). cbv zeta. run_monad.
  destruct (get_argument_title (float_str C) parser args)
    as [title|e] eqn:Ht; run_monad; [| discriminate].
  destruct (cuda_is_available E); run_monad.
  2:{ destruct (getattr args "batch_size"); run_monad; [| discriminate].
      destruct (getattr args "threads"); run_monad; [| discriminate].
      destruct (getattr args "depth"); run_monad; [| discriminate].
      destruct (getattr args "width_factor"); run_monad; [| discriminate].
      destruct (getattr args "dropout"); run_monad; [| discriminate].
      destruct (WideResNet C _ _ _); run_monad; discriminate. }
  destruct (getattr args "gpus") as [gpus|e] eqn:Hg; run_monad; [| discriminate].
  destruct (getattr args "batch_size") as [bs|e] eqn:Hb; run_monad;
    [| discriminate].
  destruct (getattr args "threads") as [th|e] eqn:Hth; run_monad;
    [| discriminate].
  destruct (getattr args "depth") as [dp|e] eqn:Hd; run_monad; [| discriminate].
  destruct (getattr args "width_factor") as [wf|e] eqn:Hw; run_monad;
    [| discriminate].
  destruct (getattr args "dropout") as [dr|e] eqn:Hdr; run_monad;
    [| discriminate].
  destruct (WideResNet C dp wf dr) as [net|e] eqn:Hnet; run_monad;
    [| discriminate].
  destruct (getattr args "sgd") as [sgd|e] eqn:Hs; run_monad; [| discriminate].
  destruct (truthy sgd) eqn:Hsgd; run_monad.
  - destruct (optim_SGD C net args) as [o|e] eqn:Ho; run_monad; [| discriminate].
    destruct (getattr args "epochs") as [ep|e] eqn:He; run_monad;
      [| discriminate].
    intros H. injection H as <- <-. split; [reflexivity|].
    exists title, gpus, bs, th, dp, wf, dr, sgd, ep.
    rewrite Hsgd. cbn. repeat (split; [first [assumption | reflexivity]|]).
    reflexivity.
  - destruct (SAM C net args) as [o|e] eqn:Ho; run_monad; [| discriminate].
    destruct (getattr args "epochs") as [ep|e] eqn:He; run_monad;
      [| discriminate].
    intros H. injection H as <- <-. split; [reflexivity|].
    exists title, gpus, bs, th, dp, wf, dr, sgd, ep.
    rewrite Hsgd. cbn. repeat (split; [first [assumption | reflexivity]|]).
    reflexivity.
Qed.

(** The default options on a machine with CUDA: [SAM], on [cuda:0]. *)
Lemma setup_builds_the_run_witness :
  exists s0 tr,
    setup toy (toy_env true 1 1) (args_epochs 3) [] tt = Returned s0 tr tt
    /\ In (Print "using SAM") tr
    /\ In (ModelTo "cuda:0") tr.
Proof.
  destruct (setup toy (toy_env true 1 1) (args_epochs 3) [] tt)
    as [s0 tr u|e tr] eqn:Hrun; [| vm_compute in Hrun; discriminate Hrun].
  destruct u. exists s0, tr. split; [reflexivity|].
  destruct (setup_builds_the_run toy (toy_env true 1 1) (args_epochs 3) s0 tr Hrun)
    as [_ [title [gpus [bs [th [dp [wf [dr [sgd [ep H]]]]]]]]]].
  destruct H as [_ [Hg [_ [_ [_ [_ [_ [Hs [_ [-> _]]]]]]]]]].
  vm_compute in Hg. injection Hg as <-.
  vm_compute in Hs. injection Hs as <-.
  split; cbn; auto 10.
Defined.

(** The two samples of the toy batch. *)
Lemma calculate_acc_adv_acc_values_witness :
  exists m' acc adv_acc,
    calculate_acc_adv_acc (get_meters "val") (y toy_batch)
                          (toy_scores toy_batch) (toy_scores toy_batch)
    = Ok (m', (acc, adv_acc))
    /\ (exists l, cached_since (get_meters "val") m' "top1_accuracy" l
                  /\ length l = 2%nat /\ Forall is_hit l)
    /\ acc <> None.
Proof.
  destruct (calculate_acc_adv_acc_values
              (get_meters "val") (y toy_batch)
              (toy_scores toy_batch) (toy_scores toy_batch)
              eq_refl eq_refl eq_refl)
    as [m' [acc [adv_acc [Hrun [Hk [Hacc _]]]]]].
  exists m', acc, adv_acc. split; [exact Hrun|]. split.
  - destruct (Hk 1%nat (conj (le_n 1) (le_S _ _ (le_S _ _ (le_S _ _ (le_n 1))))))
      as [l [l_adv [Hc [_ [Hl [_ [Hh _]]]]]]].
    exists l. split; [exact Hc|]. split; [exact Hl | exact Hh].
  - destruct acc; [discriminate|]. discriminate Hacc.
Defined.

(** Three training batches of the toy collaborators, whose losses are 1
    and 2. *)
Lemma loss_meters_accumulate_every_batch_witness :
  match batch_loop toy "train" TrainMeters 3 0 0 (repeat toy_batch 3)
                   [] toy_store with
  | Returned _ _ s' =>
      exists rs,
        Forall2 (produced toy "train") (repeat toy_batch 3) rs
        /\ cached_since (train_meters toy toy_store) (train_meters toy s')
                        "natural_loss" (map loss_natural rs)
        /\ dict_get (train_meters toy s') "natural_loss" = Some [1; 1; 1]%Q
        /\ dict_get (train_meters toy s') "robust_loss" = Some [2; 2; 2]%Q
  | Crashed _ _ => False
  end.
Proof.
  pose proof (loss_meters_accumulate_every_batch
                toy "train" TrainMeters 3 0 (repeat toy_batch 3) 0%nat []
                toy_store eq_refl eq_refl) as H.
  destruct (batch_loop toy "train" TrainMeters 3 0 0 (repeat toy_batch 3)
                       [] toy_store) as [u tr' s'|e tr'] eqn:Hrun.
  - destruct H as [rs [Hrs [Hn _]]]. exists rs.
    split; [exact Hrs|]. split; [exact Hn|].
    vm_compute in Hrun. injection Hrun as _ _ Hs. rewrite <- Hs.
    split; reflexivity.
  - vm_compute in Hrun. discriminate Hrun.
Defined.

(** [--epochs 0] returns after the setup; [--epochs 1] does not return. *)
Lemma main_returns_only_without_epochs_witness :
  returned (main toy (toy_env true 1 1) (args_epochs 0)) = true
  /\ trace_of (main toy (toy_env true 1 1) (args_epochs 0))
     = trace_of (setup toy (toy_env true 1 1) (args_epochs 0) [] tt)
  /\ returned (main toy (toy_env true 1 1) (args_epochs 1)) = false.
Proof.
  destruct (main_returns_only_without_epochs
              toy (toy_env true 1 1) (args_epochs 0)) as [[_ Hret] Htr].
  assert (H : returned (main toy (toy_env true 1 1) (args_epochs 0)) = true).
  { apply Hret. split; [reflexivity|].
    exists (VInt 0), 0%Z. split; [reflexivity|]. split; [reflexivity | lia]. }
  split; [exact H|]. split; [exact (Htr H) | reflexivity].
Defined.

(** X14. The loop of lines 130-135 writes one record per entry of the
    flushed results other than [best_val], none dropped and in the order of
    the dict, stamped with the epoch; the tag is [train/<key>] in mode
    ["train"] and [adv_val/<key>] in every other mode. It changes nothing
    else. *)
Theorem log_results_writes_each_result
        (C : collaborators) (mode : string) (epoch : Z)
        (items : list (string * Q)) :
  forall (tr : list event) (s : store C),
    log_results C mode epoch items tr s
    = Returned tt
        (tr ++ map (fun kv => AddScalar (namespace_of mode ++ fst kv)%string
                                        (Float (snd kv)) epoch)
                   (filter (fun kv => negb (String.eqb (fst kv) "best_val"))
                           items))
        s.
Proof.
  induction items as [|[k v] items IH]; intros tr s.
  - simpl. unfold ret. now rewrite app_nil_r.
  - cbn [log_results filter fst snd]. unfold bind at 1.
    unfold namespace_of in *.
    destruct (negb (String.eqb k "best_val")).
    + destruct (String.eqb mode "train"); unfold emit; rewrite IH;
        cbn [map fst snd]; rewrite <- app_assoc; reflexivity.
    + unfold ret. apply IH.
Qed.
